(** * TH general runtime services: error reporting, allocation, shape text

    A shallow embedding of [aten/src/TH/THGeneral.cpp]:
    the error and argument-check reporters with their handler registrations,
    the allocation wrappers with the collector hook, and the formatter that
    renders a shape into a fixed buffer.

    Calls that leave the translation unit (printf, exit, realloc, free, the
    handlers and the hook the host registers) are recorded in a trace of
    events; what the C library writes into character arrays is modelled on
    explicit arrays of characters with their bounds. *)

From Stdlib Require Import ZArith Ascii String Lia.
From stdpp Require Import base list gmap strings.

Local Open Scope Z_scope.

(** ** C strings and character arrays *)

Module CStr.

Definition NUL : ascii := zero.

Definition is_nul (c : ascii) : bool := Ascii.eqb c NUL.

(** The characters of a Rocq string, as stored in memory. *)
Definition bytes (s : string) : list ascii := list_ascii_of_string s.

(** What a [const char *] designates: the characters before the first NUL. *)
Fixpoint c_str (mem : list ascii) : string :=
  match mem with
  | [] => EmptyString
  | c :: mem' => if is_nul c then EmptyString else String c (c_str mem')
  end.

(** A Rocq string read as a C string ends at its first NUL, if it has one. *)
Definition cut (s : string) : string := c_str (bytes s).

Fixpoint nul_free (s : string) : bool :=
  match s with
  | EmptyString => true
  | String c s' => negb (is_nul c) && nul_free s'
  end.

(** The first [n] characters of [s], all of [s] when it has fewer. *)
Fixpoint prefix (n : Z) (s : string) : string :=
  match s with
  | EmptyString => EmptyString
  | String c s' => if n <=? 0 then EmptyString else String c (prefix (n - 1) s')
  end.

Definition len (s : string) : Z := Z.of_nat (String.length s).

Fixpoint ends_with (tail s : string) : bool :=
  if String.eqb tail s then true
  else match s with
       | EmptyString => false
       | String _ s' => ends_with tail s'
       end.

(** A local array before anything is written to it: its contents are
    indeterminate; the model fills it with a visible non-NUL pattern. *)
Definition junk : ascii := ascii_of_nat 204.
Definition uninit (n : nat) : list ascii := repeat junk n.
Arguments uninit : simpl never.

(** Storing [bs] at offset [off] of the array [mem]; [None] when some
    character would land outside the array. *)
Definition store (mem : list ascii) (off : Z) (bs : list ascii)
  : option (list ascii) :=
  if bool_decide (0 <= off /\ off + Z.of_nat (length bs) <= Z.of_nat (length mem))
  then Some (take (Z.to_nat off) mem ++ bs
               ++ drop (Z.to_nat off + length bs) mem)
  else None.

End CStr.

(** ** Machine integers *)

Module MachInt.

Definition INT_MAX : Z := 2147483647.

(** The value of a [w]-bit two's complement integer with the bits of [z]. *)
Definition sint (w : Z) (z : Z) : Z :=
  let m := z mod 2 ^ w in
  if m <? 2 ^ (w - 1) then m else m - 2 ^ w.

(** Conversion to [size_t] (64 bits). *)
Definition to_size_t (z : Z) : Z := z mod 2 ^ 64.

End MachInt.

(** ** Formatted output: the part of printf the file uses *)

Module Printf.
Import CStr MachInt.

Inductive va_arg : Type :=
| va_int (z : Z)
| va_str (s : string).

Definition digit (d : Z) : ascii :=
  match d with
  | 0 => "0" | 1 => "1" | 2 => "2" | 3 => "3" | 4 => "4"
  | 5 => "5" | 6 => "6" | 7 => "7" | 8 => "8" | _ => "9"
  end%char.

(** Decimal digits of a non-negative number, most significant first. Twenty
    rounds cover every 64-bit value. *)
Fixpoint dec_digits (rounds : nat) (n : Z) (acc : string) : string :=
  match rounds with
  | O => acc
  | S rounds' =>
      let acc' := String (digit (n mod 10)) acc in
      if n <? 10 then acc' else dec_digits rounds' (n / 10) acc'
  end.

Definition dec (z : Z) : string :=
  if z <? 0 then String "-" (dec_digits 20 (- z) EmptyString)
  else dec_digits 20 z EmptyString.
Arguments dec : simpl never.

(** Where the scanner stands inside a conversion specification. *)
Inductive conv : Type := Plain | Pct | PctL | PctLL.

(** The text a format produces. Conversions: [%d] (an int: the low 32 bits
    of the argument), [%ld] and [%lld] (64 bits), [%s], [%%]. [None] for a
    conversion outside this set, a missing argument or an argument of the
    wrong kind, where C leaves the behaviour undefined. The format ends at
    its first NUL, and so does a [%s] argument. *)
Fixpoint vformat (st : conv) (fmt : string) (ap : list va_arg)
  : option string :=
  match fmt with
  | EmptyString =>
      match st with Plain => Some EmptyString | _ => None end
  | String c fmt' =>
      if is_nul c then
        match st with Plain => Some EmptyString | _ => None end
      else
        match st with
        | Plain =>
            if Ascii.eqb c "%" then vformat Pct fmt' ap
            else String c <$> vformat Plain fmt' ap
        | Pct =>
            if Ascii.eqb c "%" then String c <$> vformat Plain fmt' ap
            else if Ascii.eqb c "d" then
              match ap with
              | va_int z :: ap' =>
                  String.append (dec (sint 32 z)) <$> vformat Plain fmt' ap'
              | _ => None
              end
            else if Ascii.eqb c "s" then
              match ap with
              | va_str s :: ap' =>
                  String.append (cut s) <$> vformat Plain fmt' ap'
              | _ => None
              end
            else if Ascii.eqb c "l" then vformat PctL fmt' ap
            else None
        | PctL =>
            if Ascii.eqb c "d" then
              match ap with
              | va_int z :: ap' =>
                  String.append (dec (sint 64 z)) <$> vformat Plain fmt' ap'
              | _ => None
              end
            else if Ascii.eqb c "l" then vformat PctLL fmt' ap
            else None
        | PctLL =>
            if Ascii.eqb c "d" then
              match ap with
              | va_int z :: ap' =>
                  String.append (dec (sint 64 z)) <$> vformat Plain fmt' ap'
              | _ => None
              end
            else None
        end
  end.

Definition format (fmt : string) (ap : list va_arg) : option string :=
  vformat Plain fmt ap.

(** [PRId64] of <inttypes.h> where [int64_t] is [long]. *)
Definition PRId64 : string := "ld".

(** The value [snprintf] returns: the length of the whole text, or a
    negative value when that length is not an [int]. *)
Definition printed (text : string) : Z :=
  if INT_MAX <? len text then -1 else len text.

Inductive fault : Type :=
| BadFormat       (* a format the model does not define *)
| OutOfBounds     (* an access outside an array *)
| Unreachable.    (* control reached a point marked unreachable *)

Inductive result (A : Type) : Type :=
| Ok (a : A)
| Fault (f : fault).
Arguments Ok {A} a.
Arguments Fault {A} f.

(** [snprintf(mem + off, size, fmt, ap)]: at most [size - 1] characters of
    the text and a terminating NUL are stored from [mem + off] on; nothing
    is stored when [size] is zero. *)
Definition snprintf (mem : list ascii) (off size : Z)
    (fmt : string) (ap : list va_arg) : result (list ascii * Z) :=
  match format fmt ap with
  | None => Fault BadFormat
  | Some text =>
      if size =? 0 then Ok (mem, printed text)
      else
        match store mem off
                (bytes (prefix (size - 1) text) ++ [NUL]) with
        | None => Fault OutOfBounds
        | Some mem' => Ok (mem', printed text)
        end
  end.

End Printf.

(** ** The state of the translation unit and of the system around it *)

Module TH.
Import CStr MachInt Printf.

Definition ptr : Type := Z.
Definition NULL : ptr := 0.

(** Address of a function of the embedding host. *)
Definition fnptr : Type := Z.

Definition tid : Type := nat.

(** A non-null [THErrorHandlerFunction]: the static function of this file
    or a function of the host. *)
Inductive THErrorHandlerFunction : Type :=
| builtin_error_handler
| host_error_handler (f : fnptr).

Inductive THArgErrorHandlerFunction : Type :=
| builtin_arg_error_handler
| host_arg_error_handler (f : fnptr).

(** Calls that leave this file, in the order they happen. *)
Inductive event : Type :=
| Ev_printf (text : string)
| Ev_error_handler (h : THErrorHandlerFunction) (msg : string) (data : ptr)
| Ev_arg_error_handler (h : THArgErrorHandlerFunction) (argNumber : Z)
    (msg : option string) (data : ptr)
| Ev_gc (f : fnptr) (data : ptr)
| Ev_realloc (p : ptr) (size : Z)
| Ev_free (p : ptr)
| Ev_alloc_cpu (size : Z).

(** The [__thread] variables of one thread, for a build with
    [TH_HAVE_THREAD], where each thread has its own copy. *)
Record thread_vars : Type := mk_thread_vars {
  threadErrorHandler : option THErrorHandlerFunction;
  threadErrorHandlerData : ptr;
  threadArgErrorHandler : option THArgErrorHandlerFunction;
  threadArgErrorHandlerData : ptr;
  torchGCFunction : option fnptr;
  torchGCData : ptr
}.

(** Static storage is zero-initialised. *)
Definition thread_vars0 : thread_vars :=
  mk_thread_vars None NULL None NULL None NULL.

Record World : Type := mk_World {
  defaultErrorHandler : THErrorHandlerFunction;
  defaultErrorHandlerData : ptr;
  defaultArgErrorHandler : THArgErrorHandlerFunction;
  defaultArgErrorHandlerData : ptr;
  thread_local : gmap nat thread_vars;
  (** what the next calls of [realloc] return; NULL once the list is used up *)
  realloc_answers : list ptr;
  (** what the next calls of [c10::alloc_cpu] do: return a pointer or raise *)
  alloc_cpu_answers : list (option ptr);
  trace : list event
}.

Definition World0 : World :=
  mk_World builtin_error_handler NULL builtin_arg_error_handler NULL
           ∅ [] [] [].

Definition tls (t : tid) (w : World) : thread_vars :=
  default thread_vars0 (thread_local w !! t).

Definition with_tls (t : tid) (v : thread_vars) (w : World) : World :=
  mk_World (defaultErrorHandler w) (defaultErrorHandlerData w)
           (defaultArgErrorHandler w) (defaultArgErrorHandlerData w)
           (<[t := v]> (thread_local w))
           (realloc_answers w) (alloc_cpu_answers w) (trace w).

Definition with_trace (tr : list event) (w : World) : World :=
  mk_World (defaultErrorHandler w) (defaultErrorHandlerData w)
           (defaultArgErrorHandler w) (defaultArgErrorHandlerData w)
           (thread_local w) (realloc_answers w) (alloc_cpu_answers w) tr.

Definition with_realloc_answers (l : list ptr) (w : World) : World :=
  mk_World (defaultErrorHandler w) (defaultErrorHandlerData w)
           (defaultArgErrorHandler w) (defaultArgErrorHandlerData w)
           (thread_local w) l (alloc_cpu_answers w) (trace w).

Definition with_alloc_cpu_answers (l : list (option ptr)) (w : World) : World :=
  mk_World (defaultErrorHandler w) (defaultErrorHandlerData w)
           (defaultArgErrorHandler w) (defaultArgErrorHandlerData w)
           (thread_local w) (realloc_answers w) l (trace w).

(** How control leaves a handler of the host. The interface asks handlers
    not to return. *)
Inductive departure : Type :=
| Terminates (status : Z)   (* the handler ends the process *)
| Transfers                 (* longjmp, or an exception *)
| ComesBack.                (* the handler returns to its caller *)

(** What the host supplies: the behaviour of the handlers it registers, and
    the name under which this file is compiled ([__FILE__]). *)
Record Host : Type := mk_Host {
  host_error : fnptr -> string -> ptr -> departure;
  host_arg_error : fnptr -> Z -> option string -> ptr -> departure;
  this_file : string
}.

(** ** Computations *)

Inductive outcome (A : Type) : Type :=
| Returned (a : A) (w : World)        (* back to the caller *)
| Exited (status : Z) (w : World)     (* exit(status) *)
| Transferred (w : World)             (* control went elsewhere *)
| Undefined (f : fault) (w : World).  (* C gives no meaning to what follows *)
Arguments Returned {A} a w.
Arguments Exited {A} status w.
Arguments Transferred {A} w.
Arguments Undefined {A} f w.

Definition M (A : Type) : Type := World -> outcome A.

Definition ret {A} (a : A) : M A := fun w => Returned a w.

Definition bind {A B} (m : M A) (k : A -> M B) : M B :=
  fun w =>
    match m w with
    | Returned a w' => k a w'
    | Exited s w' => Exited s w'
    | Transferred w' => Transferred w'
    | Undefined f w' => Undefined f w'
    end.

Notation "x <- m ;; k" := (bind m (fun x => k))
  (at level 100, m at next level, right associativity).
Notation "m ;; k" := (bind m (fun _ => k))
  (at level 100, right associativity).

Definition read {A} (f : World -> A) : M A := fun w => Returned (f w) w.
Definition modify (f : World -> World) : M unit := fun w => Returned tt (f w).

Definition lift {A} (r : result A) : M A :=
  fun w => match r with Ok a => Returned a w | Fault f => Undefined f w end.

Definition emit (e : event) : M unit :=
  modify (fun w => with_trace (trace w ++ [e]) w).

Definition final {A} (o : outcome A) : World :=
  match o with
  | Returned _ w | Exited _ w | Transferred w | Undefined _ w => w
  end.

Definition returns {A} (o : outcome A) : bool :=
  match o with Returned _ _ => true | _ => false end.

(** The events of a run that started in [w]. *)
Definition events_since {A} (w : World) (o : outcome A) : list event :=
  drop (length (trace w)) (trace (final o)).

Definition is_gc (e : event) : bool :=
  match e with Ev_gc _ _ => true | _ => false end.
Definition is_realloc (e : event) : bool :=
  match e with Ev_realloc _ _ => true | _ => false end.
Definition is_free (e : event) : bool :=
  match e with Ev_free _ => true | _ => false end.
Definition is_alloc_cpu (e : event) : bool :=
  match e with Ev_alloc_cpu _ => true | _ => false end.
Definition is_error_handler (e : event) : bool :=
  match e with Ev_error_handler _ _ _ => true | _ => false end.
Definition is_arg_error_handler (e : event) : bool :=
  match e with Ev_arg_error_handler _ _ _ _ => true | _ => false end.

Definition count (p : event -> bool) (tr : list event) : nat :=
  length (filter (fun e => p e = true) tr).

(** A fatal library error was raised: an error handler was called. *)
Definition raised (tr : list event) : bool :=
  existsb is_error_handler tr.

(** ** System services *)

Definition nl : string := String (ascii_of_nat 10) EmptyString.

Definition printf (fmt : string) (ap : list va_arg) : M unit :=
  text <- lift (match format fmt ap with
                | Some text => Ok text
                | None => Fault BadFormat
                end) ;;
  emit (Ev_printf text).

Definition exit {A} (status : Z) : M A := fun w => Exited status w.

(** The status a parent process sees. *)
Definition wait_status (status : Z) : Z := Z.land status 255.

Definition realloc (p : ptr) (size : Z) : M ptr :=
  emit (Ev_realloc p size) ;;
  l <- read realloc_answers ;;
  match l with
  | [] => ret NULL
  | q :: l' => modify (with_realloc_answers l') ;; ret q
  end.

Definition free (p : ptr) : M unit := emit (Ev_free p).

(** Modelled from the spec: [c10::alloc_cpu] is declared in
    <c10/core/CPUAllocator.h>, which is not part of the sources at hand.
    The spec has allocation delegate to the underlying allocator, whose
    failure surfaces as an error raised by that layer, not as a result. *)
Definition alloc_cpu (size : Z) : M ptr :=
  emit (Ev_alloc_cpu size) ;;
  l <- read alloc_cpu_answers ;;
  match l with
  | [] => fun w => Transferred w
  | a :: l' =>
      modify (with_alloc_cpu_answers l') ;;
      match a with
      | Some q => ret q
      | None => fun w => Transferred w
      end
  end.

(** Modelled from the spec: [TH_UNREACHABLE] is a macro of <TH/THGeneral.h>,
    which is not part of the sources at hand. The spec defines error
    reporting never to return to its caller, so control that arrives here
    does not go on: C gives it no meaning. *)
Definition TH_UNREACHABLE {A} : M A := fun w => Undefined Unreachable w.

Definition leave (d : departure) : M unit :=
  fun w =>
    match d with
    | Terminates s => Exited s w
    | Transfers => Transferred w
    | ComesBack => Returned tt w
    end.

(** ** The functions of THGeneral.cpp *)

Section Functions.

Context (host : Host).

(** *** Torch Error Handling *)

Definition defaultErrorHandlerFunction (msg : string) (data : ptr) : M unit :=
  printf ("$ Error: %s" +:+ nl) [va_str msg] ;;
  exit (-1).

(** A call through a [THErrorHandlerFunction]. *)
Definition call_error_handler (h : THErrorHandlerFunction)
    (msg : string) (data : ptr) : M unit :=
  emit (Ev_error_handler h msg data) ;;
  match h with
  | builtin_error_handler => defaultErrorHandlerFunction msg data
  | host_error_handler f => leave (host_error host f msg data)
  end.

Definition _THError (t : tid) (file : string) (line : Z)
    (fmt : string) (ap : list va_arg) : M unit :=
  r <- lift (snprintf (uninit 2048) 0 2048 fmt ap) ;;
  let '(msg, n) := r in
  msg <- (if n <? 2048 then
            r' <- lift (snprintf msg n (to_size_t (2048 - n)) " at %s:%d"
                          [va_str file; va_int line]) ;;
            ret (fst r')
          else ret msg) ;;
  v <- read (tls t) ;;
  match threadErrorHandler v with
  | Some h => call_error_handler h (c_str msg) (threadErrorHandlerData v)
  | None =>
      h <- read defaultErrorHandler ;;
      d <- read defaultErrorHandlerData ;;
      call_error_handler h (c_str msg) d
  end ;;
  TH_UNREACHABLE.

Definition _THAssertionFailed (t : tid) (file : string) (line : Z)
    (exp : string) (fmt : string) (ap : list va_arg) : M unit :=
  r <- lift (snprintf (uninit 1024) 0 1024 fmt ap) ;;
  _THError t file line "Assertion `%s' failed. %s"
    [va_str exp; va_str (c_str (fst r))].

Definition THSetErrorHandler (t : tid)
    (new_handler : option THErrorHandlerFunction) (data : ptr) : M unit :=
  modify (fun w =>
    let v := tls t w in
    with_tls t (mk_thread_vars new_handler data
                  (threadArgErrorHandler v) (threadArgErrorHandlerData v)
                  (torchGCFunction v) (torchGCData v)) w).

Definition THSetDefaultErrorHandler
    (new_handler : option THErrorHandlerFunction) (data : ptr) : M unit :=
  modify (fun w =>
    mk_World (match new_handler with
              | Some h => h
              | None => builtin_error_handler
              end)
             data
             (defaultArgErrorHandler w) (defaultArgErrorHandlerData w)
             (thread_local w) (realloc_answers w) (alloc_cpu_answers w)
             (trace w)).

(** *** Torch Arg Checking Handling *)

Definition defaultArgErrorHandlerFunction (argNumber : Z)
    (msg : option string) (data : ptr) : M unit :=
  match msg with
  | Some m =>
      printf ("$ Invalid argument %d: %s" +:+ nl) [va_int argNumber; va_str m]
  | None =>
      printf ("$ Invalid argument %d" +:+ nl) [va_int argNumber]
  end ;;
  exit (-1).

Definition call_arg_error_handler (h : THArgErrorHandlerFunction)
    (argNumber : Z) (msg : option string) (data : ptr) : M unit :=
  emit (Ev_arg_error_handler h argNumber msg data) ;;
  match h with
  | builtin_arg_error_handler =>
      defaultArgErrorHandlerFunction argNumber msg data
  | host_arg_error_handler f =>
      leave (host_arg_error host f argNumber msg data)
  end.

Definition _THArgCheck (t : tid) (file : string) (line : Z)
    (condition : Z) (argNumber : Z) (fmt : string) (ap : list va_arg)
  : M unit :=
  if condition =? 0 then
    r <- lift (snprintf (uninit 2048) 0 2048 fmt ap) ;;
    let '(msg, n) := r in
    msg <- (if n <? 2048 then
              r' <- lift (snprintf msg n (to_size_t (2048 - n)) " at %s:%d"
                            [va_str file; va_int line]) ;;
              ret (fst r')
            else ret msg) ;;
    v <- read (tls t) ;;
    match threadArgErrorHandler v with
    | Some h =>
        call_arg_error_handler h argNumber (Some (c_str msg))
          (threadArgErrorHandlerData v)
    | None =>
        h <- read defaultArgErrorHandler ;;
        d <- read defaultArgErrorHandlerData ;;
        call_arg_error_handler h argNumber (Some (c_str msg)) d
    end ;;
    TH_UNREACHABLE
  else ret tt.

Definition THSetArgErrorHandler (t : tid)
    (new_handler : option THArgErrorHandlerFunction) (data : ptr) : M unit :=
  modify (fun w =>
    let v := tls t w in
    with_tls t (mk_thread_vars
                  (threadErrorHandler v) (threadErrorHandlerData v)
                  new_handler data
                  (torchGCFunction v) (torchGCData v)) w).

Definition THSetDefaultArgErrorHandler
    (new_handler : option THArgErrorHandlerFunction) (data : ptr) : M unit :=
  modify (fun w =>
    mk_World (defaultErrorHandler w) (defaultErrorHandlerData w)
             (match new_handler with
              | Some h => h
              | None => builtin_arg_error_handler
              end)
             data
             (thread_local w) (realloc_answers w) (alloc_cpu_answers w)
             (trace w)).

(** *** Allocation *)

Definition THSetGCHandler (t : tid)
    (torchGCFunction_ : option fnptr) (data : ptr) : M unit :=
  modify (fun w =>
    let v := tls t w in
    with_tls t (mk_thread_vars
                  (threadErrorHandler v) (threadErrorHandlerData v)
                  (threadArgErrorHandler v) (threadArgErrorHandlerData v)
                  torchGCFunction_ data) w).

(** Modelled from the spec: [THError] is a macro of <TH/THGeneral.h>, which
    is not part of the sources at hand. The spec routes fatal errors through
    error reporting with the place of the call: here this file and the line
    the macro stands on. *)
Definition THError (t : tid) (line : Z) (fmt : string) (ap : list va_arg)
  : M unit :=
  _THError t (this_file host) line fmt ap.

Definition THAlloc (t : tid) (size : Z) : M ptr :=
  (if size <? 0 then
     THError t 165 "$ Torch: invalid memory size -- maybe an overflow?" []
   else ret tt) ;;
  alloc_cpu size.

Definition THFree (p : ptr) : M unit := free p.

Definition THRealloc (t : tid) (p : ptr) (size : Z) : M ptr :=
  if p =? NULL then THAlloc t size
  else if size =? 0 then
    THFree p ;;
    ret NULL
  else
    (if size <? 0 then
       THError t 182 "$ Torch: invalid memory size -- maybe an overflow?" []
     else ret tt) ;;
    newptr <- realloc p size ;;
    v <- read (tls t) ;;
    newptr <- (if newptr =? NULL then
                 match torchGCFunction v with
                 | Some gc =>
                     emit (Ev_gc gc (torchGCData v)) ;;
                     realloc p size
                 | None => ret newptr
                 end
               else ret newptr) ;;
    (if newptr =? NULL then
       THError t 192
         "$ Torch: not enough memory: you tried to reallocate %dGB. Buy new RAM!"
         [va_int (size ÷ 1073741824)]
     else ret tt) ;;
    ret newptr.

End Functions.

(** *** Shape text *)

Section Desc.

(** [TH_DESC_BUFF_LEN] is a constant of <TH/THGeneral.h>, which is not part
    of the sources at hand: the number of characters in the array of a
    [THDescBuff]. *)
Variable TH_DESC_BUFF_LEN : Z.

(** The rounds of the [for] loop for the indices [idx] still to come; [str]
    is the array of the buffer and [n] the count so far. *)
Fixpoint size_loop (idx : list Z) (size : list Z) (ndim : Z)
    (str : list ascii) (n : Z) : result (list ascii * Z) :=
  let L := TH_DESC_BUFF_LEN in
  match idx with
  | [] => Ok (str, n)
  | i :: idx' =>
      if n >=? L then Ok (str, n)
      else
        match size !! Z.to_nat i with
        | None => Fault OutOfBounds
        | Some d =>
            match snprintf str n (to_size_t (L - n)) ("%" +:+ PRId64)
                    [va_int d] with
            | Fault f => Fault f
            | Ok (str, k) =>
                let n := n + k in
                if i <? ndim - 1 then
                  match snprintf str n (to_size_t (L - n)) " x " [] with
                  | Fault f => Fault f
                  | Ok (str, k) => size_loop idx' size ndim str (n + k)
                  end
                else size_loop idx' size ndim str n
            end
        end
  end.

(** The array of the [THDescBuff] returned for the [ndim] first elements of
    [size]. *)
Definition _THSizeDesc (size : list Z) (ndim : Z) : result (list ascii) :=
  let L := TH_DESC_BUFF_LEN in
  let str := uninit (Z.to_nat L) in
  match snprintf str 0 (to_size_t (L - 0)) "[" [] with
  | Fault f => Fault f
  | Ok (str, k) =>
      match size_loop (seqZ 0 ndim) size ndim str (0 + k) with
      | Fault f => Fault f
      | Ok (str, n) =>
          match (if n <? L - 2 then
                   snprintf str n (to_size_t (L - n)) "]" []
                 else
                   snprintf str (L - 5) 5 "...]" []) with
          | Fault f => Fault f
          | Ok (str, _) => Ok str
          end
      end
  end.

End Desc.

End TH.

(** ** Notions used in the statements *)

Module Notions.
Import CStr MachInt Printf TH.

(** The text of the location suffix. *)
Definition location (file : string) (line : Z) : string :=
  " at " +:+ cut file +:+ ":" +:+ dec (sint 32 line).

(** The primary text followed by the location, cut to the 2047 characters
    that fit in front of the terminator of a 2048-character array. *)
Definition located (primary file : string) (line : Z) : string :=
  prefix 2047 (primary +:+ location file line).

(** The two formatting steps that [_THError] and [_THArgCheck] both start
    with, and the array they leave. *)
Definition format_message (fmt : string) (ap : list va_arg)
    (file : string) (line : Z) : result (list ascii) :=
  match snprintf (uninit 2048) 0 2048 fmt ap with
  | Fault f => Fault f
  | Ok (msg, n) =>
      if n <? 2048 then
        match snprintf msg n (to_size_t (2048 - n)) " at %s:%d"
                [va_str file; va_int line] with
        | Fault f => Fault f
        | Ok (msg', _) => Ok msg'
        end
      else Ok msg
  end.

(** The handler and data that error reporting on thread [t] turns to. *)
Definition error_handler_for (t : tid) (w : World)
  : THErrorHandlerFunction * ptr :=
  match threadErrorHandler (tls t w) with
  | Some h => (h, threadErrorHandlerData (tls t w))
  | None => (defaultErrorHandler w, defaultErrorHandlerData w)
  end.

Definition arg_error_handler_for (t : tid) (w : World)
  : THArgErrorHandlerFunction * ptr :=
  match threadArgErrorHandler (tls t w) with
  | Some h => (h, threadArgErrorHandlerData (tls t w))
  | None => (defaultArgErrorHandler w, defaultArgErrorHandlerData w)
  end.

(** The events of a call of the error handler [h]: the call, and the line
    the built-in handler prints. *)
Definition error_events (h : THErrorHandlerFunction) (msg : string)
    (d : ptr) : list event :=
  Ev_error_handler h msg d ::
  match h with
  | builtin_error_handler => [Ev_printf ("$ Error: " +:+ cut msg +:+ nl)]
  | host_error_handler _ => []
  end.

Definition arg_error_events (h : THArgErrorHandlerFunction) (argNumber : Z)
    (msg : string) (d : ptr) : list event :=
  Ev_arg_error_handler h argNumber (Some msg) d ::
  match h with
  | builtin_arg_error_handler =>
      [Ev_printf ("$ Invalid argument " +:+ dec (sint 32 argNumber) +:+ ": "
                  +:+ cut msg +:+ nl)]
  | host_arg_error_handler _ => []
  end.

(** The texts of the two fatal errors of the allocator. *)
Definition invalid_size_text : string :=
  "$ Torch: invalid memory size -- maybe an overflow?".

Definition no_memory_text (size : Z) : string :=
  "$ Torch: not enough memory: you tried to reallocate "
  +:+ dec (sint 32 (size ÷ 1073741824)) +:+ "GB. Buy new RAM!".

(** The world [w] once the events [evs] have happened, all else as it was. *)
Definition logged (evs : list event) (w : World) : World :=
  with_trace (trace w ++ evs) w.

(** A host whose handlers leave by a transfer of control. *)
Definition quiet_host : Host :=
  mk_Host (fun _ _ _ => Transfers) (fun _ _ _ _ => Transfers)
          "aten/src/TH/THGeneral.cpp".

(** A world where thread 0 has registered a collector hook and where the
    system refuses the next reallocation and grants the one after. *)
Definition hooked_world : World :=
  with_realloc_answers [NULL; 8192]
    (final (THSetGCHandler 0%nat (Some 77) 5 World0)).

(** A shape of seventeen dimensions: fifteen of size 1, then 1000, then 1. *)
Definition long_shape : list Z := replicate 15 1 ++ [1000; 1].

(** For a buffer of [L] characters, a shape whose text crosses the end of
    the buffer in the middle of a number that is not the last. *)
Definition crossing_shape (L : Z) : list Z :=
  replicate (Z.to_nat ((L - 2) / 4)) 1 ++ [10000; 1].

(** The text ["[d0 x d1 x ... x dn]"] for the sizes [ds], whatever its
    length. *)
Fixpoint shape_items (ds : list Z) : string :=
  match ds with
  | [] => EmptyString
  | [d] => dec (sint 64 d)
  | d :: ds' => dec (sint 64 d) +:+ " x " +:+ shape_items ds'
  end.

Definition shape_text (ds : list Z) : string :=
  "[" +:+ shape_items ds +:+ "]".

(** The string a returned buffer holds. *)
Definition desc_text (r : result (list ascii)) : option string :=
  match r with Ok str => Some (c_str str) | Fault _ => None end.

(** What the rounds of [_THSizeDesc] maintain: the array [str] has the
    length of the buffer and holds the text [T] printed so far, as far as it
    fits in front of the terminator; while [T] fits, the array starts with
    it and its terminator. *)
Definition desc_state (L : Z) (str : list ascii) (T : string) : Prop :=
  Z.of_nat (length str) = L
  /\ nul_free T = true
  /\ c_str str = prefix (L - 1) T
  /\ (len T < L -> exists rest, str = bytes T ++ NUL :: rest).

(** The events of [THRealloc] for a pointer that is not null and a positive
    size, read off the answers of the system, the hook of the thread and
    the error handler in force. *)
Definition realloc_events (host : Host) (t : tid) (p : ptr) (size : Z)
    (w : World) : list event :=
  let a := realloc_answers w in
  let fatal :=
    error_events (error_handler_for t w).1
      (located (no_memory_text size) (this_file host) 192)
      (error_handler_for t w).2 in
  if hd NULL a =? NULL then
    match torchGCFunction (tls t w) with
    | Some gc =>
        [Ev_realloc p size; Ev_gc gc (torchGCData (tls t w));
         Ev_realloc p size]
        ++ (if hd NULL (tl a) =? NULL then fatal else [])
    | None => Ev_realloc p size :: fatal
    end
  else [Ev_realloc p size].

(** Whether the rounds of [_THSizeDesc], with the count at [n] and the sizes
    [rem] still to print, reach a separator with the count beyond the [L]
    characters of the buffer. Only lengths enter. *)
Fixpoint overruns (L n : Z) (rem : list Z) : bool :=
  match rem with
  | [] => false
  | d :: rem' =>
      if n >=? L then false
      else
        let n1 := n + len (dec (sint 64 d)) in
        match rem' with
        | [] => false
        | _ :: _ => if L <? n1 then true else overruns L (n1 + 3) rem'
        end
  end.

(** [n] copies of the letter x. *)
Definition xs (n : nat) : string := string_of_list_ascii (repeat "x"%char n).

End Notions.

(** * Properties *)

(** ** Facts about C strings *)

Section CStrFacts.
Import CStr.

Lemma is_nul_NUL : is_nul NUL = true.
Proof. reflexivity. Qed.

Lemma app_nil_s (b : string) : EmptyString +:+ b = b.
Proof. reflexivity. Qed.

Lemma app_cons_s (c : ascii) (a b : string) :
  String c a +:+ b = String c (a +:+ b).
Proof. reflexivity. Qed.

Lemma bytes_app (a b : string) : bytes (a +:+ b) = bytes a ++ bytes b.
Proof.
  induction a as [|c a IH]; [done |].
  rewrite app_cons_s. simpl. by rewrite IH.
Qed.

Lemma length_bytes (s : string) : Z.of_nat (length (bytes s)) = len s.
Proof.
  unfold len. f_equal. induction s as [|c s IH]; simpl; [done | by rewrite IH].
Qed.

Lemma len_nonneg (s : string) : 0 <= len s.
Proof. unfold len. lia. Qed.

Lemma len_empty : len EmptyString = 0.
Proof. reflexivity. Qed.

Lemma len_cons (c : ascii) (s : string) : len (String c s) = 1 + len s.
Proof. unfold len. simpl. lia. Qed.

Lemma len_app (a b : string) : len (a +:+ b) = len a + len b.
Proof.
  induction a as [|c a IH].
  - rewrite app_nil_s, len_empty. lia.
  - rewrite app_cons_s, !len_cons, IH. lia.
Qed.

Lemma app_empty_r (s : string) : s +:+ EmptyString = s.
Proof.
  induction s as [|c s IH]; [done |]. by rewrite app_cons_s, IH.
Qed.

Lemma app_assoc_s (a b c : string) : (a +:+ b) +:+ c = a +:+ (b +:+ c).
Proof.
  induction a as [|x a IH]; [done |]. by rewrite !app_cons_s, IH.
Qed.

Lemma nul_free_app (a b : string) :
  nul_free (a +:+ b) = nul_free a && nul_free b.
Proof.
  induction a as [|c a IH]; [done |].
  rewrite app_cons_s. simpl. rewrite IH. by rewrite andb_assoc.
Qed.

Lemma nul_free_c_str (mem : list ascii) : nul_free (c_str mem) = true.
Proof.
  induction mem as [|c mem IH]; simpl; [done |].
  destruct (is_nul c) eqn:E; simpl; [done |]. by rewrite E, IH.
Qed.

Lemma c_str_bytes (s : string) (rest : list ascii) :
  nul_free s = true -> c_str (bytes s ++ NUL :: rest) = s.
Proof.
  induction s as [|c s IH]; simpl; intros H; [done |].
  apply andb_true_iff in H as [Hc Hs].
  destruct (is_nul c); [done |]. by rewrite IH.
Qed.

Lemma c_str_bytes_end (s : string) :
  nul_free s = true -> c_str (bytes s) = s.
Proof.
  induction s as [|c s IH]; simpl; intros H; [done |].
  apply andb_true_iff in H as [Hc Hs].
  destruct (is_nul c); [done |]. by rewrite IH.
Qed.

Lemma cut_nul_free (s : string) : nul_free s = true -> cut s = s.
Proof. apply c_str_bytes_end. Qed.

Lemma nul_free_cut (s : string) : nul_free (cut s) = true.
Proof. apply nul_free_c_str. Qed.

Lemma prefix_nonpos (n : Z) (s : string) : n <= 0 -> prefix n s = EmptyString.
Proof.
  intros Hn. destruct s as [|c s]; simpl; [done |].
  destruct (Z.leb_spec n 0); [done | lia].
Qed.

Lemma prefix_all (n : Z) (s : string) : len s <= n -> prefix n s = s.
Proof.
  revert n. induction s as [|c s IH]; simpl; intros n Hn; [done |].
  rewrite len_cons in Hn. pose proof (len_nonneg s).
  destruct (Z.leb_spec n 0); [lia |]. rewrite IH; [done | lia].
Qed.

Lemma prefix_app (n : Z) (a b : string) :
  prefix n (a +:+ b) = prefix n a +:+ prefix (n - len a) b.
Proof.
  revert n. induction a as [|c a IH]; intros n.
  - rewrite !app_nil_s, len_empty. simpl. f_equal. lia.
  - rewrite app_cons_s, len_cons. simpl. pose proof (len_nonneg a).
    destruct (Z.leb_spec n 0).
    + rewrite app_nil_s, prefix_nonpos; [done | lia].
    + rewrite app_cons_s, IH. do 3 f_equal. lia.
Qed.

Lemma len_prefix (n : Z) (s : string) :
  len (prefix n s) = Z.max 0 (Z.min n (len s)).
Proof.
  revert n. induction s as [|c s IH]; simpl; intros n.
  - rewrite len_empty. lia.
  - pose proof (len_nonneg s). destruct (Z.leb_spec n 0).
    + rewrite len_cons, len_empty. lia.
    + rewrite !len_cons, IH. lia.
Qed.

Lemma nul_free_prefix (n : Z) (s : string) :
  nul_free s = true -> nul_free (prefix n s) = true.
Proof.
  revert n. induction s as [|c s IH]; simpl; intros n H; [done |].
  apply andb_true_iff in H as [Hc Hs].
  destruct (n <=? 0); simpl; [done |]. by rewrite Hc, IH.
Qed.

Lemma length_uninit (n : nat) : length (uninit n) = n.
Proof. apply repeat_length. Qed.

(** Storing right behind the text [a] that the array starts with. *)
Lemma store_behind (a : string) (rest bs : list ascii) :
  (length bs <= length rest)%nat ->
  store (bytes a ++ rest) (len a) bs
  = Some (bytes a ++ bs ++ drop (length bs) rest).
Proof.
  intros Hfit. unfold store.
  pose proof (length_bytes a) as Ha. pose proof (len_nonneg a).
  rewrite bool_decide_eq_true_2 by (rewrite length_app; lia).
  assert (Z.to_nat (len a) = length (bytes a)) as -> by lia.
  by rewrite take_app_length, drop_app_add', app_assoc.
Qed.

End CStrFacts.

Section PrintfFacts.
Import CStr MachInt Printf.

Lemma digit_not_nul (d : Z) : is_nul (digit d) = false.
Proof.
  destruct d as [|p|p]; [done | | done].
  repeat (destruct p as [p|p|]; try done).
Qed.

Lemma nul_free_cons (c : ascii) (s : string) :
  nul_free (String c s) = negb (is_nul c) && nul_free s.
Proof. reflexivity. Qed.

Lemma nul_free_dec_digits (r : nat) (n : Z) (acc : string) :
  nul_free acc = true -> nul_free (dec_digits r n acc) = true.
Proof.
  revert n acc. induction r as [|r IH]; simpl; intros n acc H; [done |].
  assert (nul_free (String (digit (n mod 10)) acc) = true) as H'.
  { simpl. by rewrite digit_not_nul, H. }
  destruct (n <? 10); [done | by apply IH].
Qed.

Lemma nul_free_dec (z : Z) : nul_free (dec z) = true.
Proof.
  unfold dec. destruct (z <? 0); [| by apply nul_free_dec_digits].
  rewrite nul_free_cons. by rewrite nul_free_dec_digits.
Qed.

Lemma len_dec_digits (r : nat) (n : Z) (acc : string) :
  len (dec_digits r n acc) <= Z.of_nat r + len acc.
Proof.
  revert n acc. induction r as [|r IH]; simpl; intros n acc; [lia |].
  destruct (n <? 10).
  - rewrite len_cons. lia.
  - specialize (IH (n / 10) (String (digit (n mod 10)) acc)).
    rewrite len_cons in IH. lia.
Qed.

Lemma len_dec (z : Z) : len (dec z) <= 21.
Proof.
  unfold dec. destruct (z <? 0).
  - rewrite len_cons. pose proof (len_dec_digits 20 (- z) EmptyString).
    rewrite len_empty in *. lia.
  - pose proof (len_dec_digits 20 z EmptyString). rewrite len_empty in *. lia.
Qed.

(** Twenty rounds are enough: once the rounds cover the digits of the
    number, more rounds print the same text. *)
Lemma dec_digits_enough (r : nat) (n : Z) (acc : string) :
  0 <= n < 10 ^ Z.of_nat (S r) ->
  dec_digits (S (S r)) n acc = dec_digits (S r) n acc.
Proof.
  revert n acc. induction r as [|r IH]; intros n acc Hn.
  - simpl. destruct (Z.ltb_spec n 10); [done | simpl in Hn; lia].
  - change (dec_digits (S (S (S r))) n acc)
      with (let acc' := String (digit (n mod 10)) acc in
            if n <? 10 then acc' else dec_digits (S (S r)) (n / 10) acc').
    change (dec_digits (S (S r)) n acc)
      with (let acc' := String (digit (n mod 10)) acc in
            if n <? 10 then acc' else dec_digits (S r) (n / 10) acc').
    cbv zeta. destruct (Z.ltb_spec n 10); [done |].
    apply IH. rewrite (Nat2Z.inj_succ (S r)), Z.pow_succ_r in Hn by lia.
    split; [apply Z.div_pos; lia |].
    apply Z.div_lt_upper_bound; lia.
Qed.

Example dec_examples :
  dec 0 = "0" /\ dec 42 = "42" /\ dec (-7) = "-7"
  /\ dec 9223372036854775807 = "9223372036854775807"
  /\ dec (-9223372036854775808) = "-9223372036854775808".
Proof. by vm_compute. Qed.

Lemma vformat_nul_free (st : conv) (fmt : string) (ap : list va_arg)
    (text : string) :
  vformat st fmt ap = Some text -> nul_free text = true.
Proof.
  revert st ap text. induction fmt as [|c fmt IH]; intros st ap text; simpl.
  - destruct st; intros; by simplify_eq.
  - destruct (is_nul c) eqn:Hc; [destruct st; intros; by simplify_eq |].
    destruct st; repeat case_match; intros Hf; simplify_eq;
      try (apply fmap_Some in Hf as (r & Hr & ->));
      try (by eapply IH);
      rewrite ?nul_free_app, ?nul_free_dec, ?nul_free_cut; simpl;
      rewrite ?Hc; simpl; by eapply IH.
Qed.

Lemma format_nul_free (fmt : string) (ap : list va_arg) (text : string) :
  format fmt ap = Some text -> nul_free text = true.
Proof. apply vformat_nul_free. Qed.

(** Printing behind the text [a] the array starts with. *)
Lemma snprintf_behind (a : string) (rest : list ascii) (size : Z)
    (fmt : string) (ap : list va_arg) (text : string) :
  format fmt ap = Some text ->
  0 < size <= Z.of_nat (length rest) ->
  exists rest',
    snprintf (bytes a ++ rest) (len a) size fmt ap
    = Ok (bytes (a +:+ prefix (size - 1) text) ++ NUL :: rest', printed text)
    /\ length (bytes (a +:+ prefix (size - 1) text) ++ NUL :: rest')
       = length (bytes a ++ rest).
Proof.
  intros Hf Hsize. unfold snprintf. rewrite Hf.
  destruct (Z.eqb_spec size 0) as [|_]; [lia |].
  set (p := prefix (size - 1) text).
  assert (len p <= size - 1) as Hp.
  { subst p. rewrite len_prefix. pose proof (len_nonneg text). lia. }
  pose proof (length_bytes p) as Hlp.
  rewrite store_behind by (rewrite length_app; simpl; lia).
  eexists. split.
  - rewrite bytes_app, <- !app_assoc. simpl. reflexivity.
  - rewrite bytes_app. repeat (rewrite ?length_app, ?length_drop; simpl). lia.
Qed.

End PrintfFacts.

(** ** Facts about computations *)

Section RunFacts.
Import CStr MachInt Printf TH Notions.

Context (host : Host).

Lemma events_since_app {A} (w : World) (o : outcome A) (evs : list event) :
  trace (final o) = trace w ++ evs -> events_since w o = evs.
Proof. intros H. unfold events_since. rewrite H. apply drop_app_length. Qed.

(** Nothing returns through [TH_UNREACHABLE]. *)
Lemma unreachable_no_return {A B} (m : M A) (w : World) :
  returns ((m ;; @TH_UNREACHABLE B) w) = false.
Proof. unfold bind. by destruct (m w). Qed.

Lemma format_location (file : string) (line : Z) :
  format " at %s:%d" [va_str file; va_int line] = Some (location file line).
Proof.
  unfold format, location. simpl. by rewrite app_empty_r.
Qed.

Lemma nul_free_location (file : string) (line : Z) :
  nul_free (location file line) = true.
Proof. eapply format_nul_free, format_location. Qed.

(** What the formatting steps leave when the format is defined. *)
Lemma format_message_ok (fmt : string) (ap : list va_arg)
    (file : string) (line : Z) (primary : string) :
  format fmt ap = Some primary ->
  len primary <= INT_MAX ->
  exists msg,
    format_message fmt ap file line = Ok msg
    /\ c_str msg = located primary file line.
Proof.
  intros Hf Hmax. unfold format_message, located.
  pose proof (format_nul_free _ _ _ Hf) as Hnf.
  pose proof (len_nonneg primary) as Hpos.
  destruct (snprintf_behind EmptyString (uninit 2048) 2048 fmt ap primary Hf)
    as (rest & Hs1 & Hlen1).
  { rewrite length_uninit. lia. }
  change (bytes EmptyString ++ uninit 2048) with (uninit 2048) in Hs1, Hlen1.
  change (len EmptyString) with 0 in Hs1. rewrite app_nil_s in Hs1, Hlen1.
  rewrite Hs1. unfold printed.
  destruct (Z.ltb_spec INT_MAX (len primary)) as [|_]; [lia |].
  change (2048 - 1) with 2047 in *.
  rewrite length_uninit, length_app in Hlen1. cbn [length] in Hlen1.
  destruct (Z.ltb_spec (len primary) 2048) as [Hlt|Hge].
  - rewrite (prefix_all 2047 primary) in * by lia.
    assert (to_size_t (2048 - len primary) = 2048 - len primary) as ->.
    { unfold to_size_t. rewrite Z.mod_small; lia. }
    pose proof (length_bytes primary) as Hlb.
    destruct (snprintf_behind primary (NUL :: rest) (2048 - len primary)
                " at %s:%d" [va_str file; va_int line] _
                (format_location file line)) as (rest' & Hs2 & _).
    { cbn [length]. lia. }
    rewrite Hs2. eexists. split; [reflexivity |].
    rewrite c_str_bytes.
    + rewrite prefix_app, (prefix_all 2047 primary) by lia. do 2 f_equal. lia.
    + rewrite nul_free_app, Hnf, andb_true_l.
      apply nul_free_prefix, nul_free_location.
  - eexists. split; [reflexivity |].
    rewrite c_str_bytes by by apply nul_free_prefix.
    rewrite prefix_app. rewrite (prefix_nonpos (2047 - len primary)) by lia.
    by rewrite app_empty_r.
Qed.


Lemma logged_logged (e1 e2 : list event) (w : World) :
  logged e2 (logged e1 w) = logged (e1 ++ e2) w.
Proof. unfold logged, with_trace. simpl. by rewrite app_assoc. Qed.

Lemma emit_logged (e : event) (w : World) :
  emit e w = Returned tt (logged [e] w).
Proof. reflexivity. Qed.

Lemma events_since_logged {A} (w : World) (o : outcome A) (evs : list event) :
  final o = logged evs w -> events_since w o = evs.
Proof. intros H. apply events_since_app. by rewrite H. Qed.

Lemma format_error_line (msg : string) :
  format ("$ Error: %s" +:+ nl) [va_str msg]
  = Some ("$ Error: " +:+ cut msg +:+ nl).
Proof. reflexivity. Qed.

(** The built-in handler prints and ends the process. *)
Lemma default_handler_run (msg : string) (d : ptr) (w : World) :
  defaultErrorHandlerFunction msg d w
  = Exited (-1) (logged [Ev_printf ("$ Error: " +:+ cut msg +:+ nl)] w).
Proof.
  unfold defaultErrorHandlerFunction, printf, bind, lift.
  by rewrite format_error_line.
Qed.

Lemma call_builtin_error_handler (msg : string) (d : ptr) (w : World) :
  (call_error_handler host builtin_error_handler msg d ;; TH_UNREACHABLE) w
  = Exited (-1)
      (logged [Ev_error_handler builtin_error_handler msg d;
               Ev_printf ("$ Error: " +:+ cut msg +:+ nl)] w)
    :> outcome unit.
Proof.
  unfold call_error_handler, bind. rewrite emit_logged, default_handler_run.
  by rewrite logged_logged.
Qed.

Lemma call_host_error_handler (f : fnptr) (msg : string) (d : ptr)
    (w : World) :
  (call_error_handler host (host_error_handler f) msg d ;; TH_UNREACHABLE) w
  = (let w' := logged [Ev_error_handler (host_error_handler f) msg d] w in
     match host_error host f msg d with
     | Terminates s => Exited s w'
     | Transfers => Transferred w'
     | ComesBack => Undefined Unreachable w'
     end) :> outcome unit.
Proof.
  unfold call_error_handler, bind, leave. rewrite emit_logged.
  by destruct (host_error host f msg d).
Qed.

(** The first event of a call through an error handler is the call. *)
Lemma call_error_handler_events (h : THErrorHandlerFunction) (msg : string)
    (d : ptr) (w : World) :
  exists rest,
    final ((call_error_handler host h msg d ;; @TH_UNREACHABLE unit) w)
    = logged (Ev_error_handler h msg d :: rest) w
    /\ forallb (fun e => negb (is_error_handler e) && negb (is_gc e)
                         && negb (is_realloc e) && negb (is_alloc_cpu e)
                         && negb (is_free e)
                         && negb (is_arg_error_handler e)) rest = true.
Proof.
  destruct h as [|f].
  - rewrite call_builtin_error_handler. by eexists.
  - rewrite call_host_error_handler. exists [].
    by destruct (host_error host f msg d).
Qed.

(** [_THError] is the two formatting steps and then the call. *)
Lemma _THError_steps (t : tid) (file : string) (line : Z) (fmt : string)
    (ap : list va_arg) (w : World) :
  _THError host t file line fmt ap w
  = match format_message fmt ap file line with
    | Fault f => Undefined f w
    | Ok msg =>
        (call_error_handler host (error_handler_for t w).1 (c_str msg)
           (error_handler_for t w).2 ;; TH_UNREACHABLE) w
    end.
Proof.
  unfold _THError, format_message, error_handler_for, bind, lift, read, ret.
  destruct (snprintf (uninit 2048) 0 2048 fmt ap) as [[msg n]|f]; [| done].
  destruct (n <? 2048).
  - destruct (snprintf msg n _ _ _) as [[msg' k]|f]; [| done].
    simpl. by destruct (threadErrorHandler (tls t w)).
  - by destruct (threadErrorHandler (tls t w)).
Qed.

Lemma _THError_no_return (t : tid) (file : string) (line : Z) (fmt : string)
    (ap : list va_arg) (w : World) :
  returns (_THError host t file line fmt ap w) = false.
Proof.
  rewrite _THError_steps. destruct (format_message _ _ _ _); [| done].
  apply unreachable_no_return.
Qed.

(** With a defined format, [_THError] calls the handler in force with the
    located message. *)
Lemma _THError_run (t : tid) (file : string) (line : Z) (fmt : string)
    (ap : list va_arg) (primary : string) (w : World) :
  format fmt ap = Some primary ->
  len primary <= INT_MAX ->
  _THError host t file line fmt ap w
  = (call_error_handler host (error_handler_for t w).1
       (located primary file line)
       (error_handler_for t w).2 ;; TH_UNREACHABLE) w.
Proof.
  intros Hf Hmax. rewrite _THError_steps.
  destruct (format_message_ok fmt ap file line primary Hf Hmax)
    as (msg & -> & <-).
  reflexivity.
Qed.

Lemma nul_free_located (primary file : string) (line : Z) :
  nul_free primary = true -> nul_free (located primary file line) = true.
Proof.
  intros H. apply nul_free_prefix. by rewrite nul_free_app, H, nul_free_location.
Qed.


Lemma error_call_final (h : THErrorHandlerFunction) (msg : string) (d : ptr)
    (w : World) :
  final ((call_error_handler host h msg d ;; @TH_UNREACHABLE unit) w)
  = logged (error_events h msg d) w.
Proof.
  destruct h as [|f].
  - by rewrite call_builtin_error_handler.
  - rewrite call_host_error_handler. by destruct (host_error host f msg d).
Qed.

Lemma _THError_events (t : tid) (file : string) (line : Z) (fmt : string)
    (ap : list va_arg) (primary : string) (w : World) :
  format fmt ap = Some primary ->
  len primary <= INT_MAX ->
  events_since w (_THError host t file line fmt ap w)
  = error_events (error_handler_for t w).1 (located primary file line)
      (error_handler_for t w).2.
Proof.
  intros Hf Hmax. apply events_since_logged.
  rewrite (_THError_run _ _ _ _ _ primary) by done. apply error_call_final.
Qed.

(** *** The same for the argument check *)

Lemma format_arg_error_line (argNumber : Z) (msg : string) :
  format ("$ Invalid argument %d: %s" +:+ nl) [va_int argNumber; va_str msg]
  = Some ("$ Invalid argument " +:+ dec (sint 32 argNumber) +:+ ": "
          +:+ cut msg +:+ nl).
Proof. reflexivity. Qed.

Lemma call_builtin_arg_error_handler (argNumber : Z) (msg : string)
    (d : ptr) (w : World) :
  (call_arg_error_handler host builtin_arg_error_handler argNumber (Some msg) d
   ;; TH_UNREACHABLE) w
  = Exited (-1)
      (logged (arg_error_events builtin_arg_error_handler argNumber msg d) w)
    :> outcome unit.
Proof.
  unfold call_arg_error_handler, defaultArgErrorHandlerFunction, printf,
    bind, lift.
  rewrite format_arg_error_line, !emit_logged. by rewrite logged_logged.
Qed.

Lemma call_host_arg_error_handler (f : fnptr) (argNumber : Z) (msg : string)
    (d : ptr) (w : World) :
  (call_arg_error_handler host (host_arg_error_handler f) argNumber
     (Some msg) d ;; TH_UNREACHABLE) w
  = (let w' := logged (arg_error_events (host_arg_error_handler f)
                         argNumber msg d) w in
     match host_arg_error host f argNumber (Some msg) d with
     | Terminates s => Exited s w'
     | Transfers => Transferred w'
     | ComesBack => Undefined Unreachable w'
     end) :> outcome unit.
Proof.
  unfold call_arg_error_handler, bind, leave. rewrite emit_logged.
  by destruct (host_arg_error host f argNumber (Some msg) d).
Qed.

Lemma arg_error_call_final (h : THArgErrorHandlerFunction) (argNumber : Z)
    (msg : string) (d : ptr) (w : World) :
  final ((call_arg_error_handler host h argNumber (Some msg) d
          ;; @TH_UNREACHABLE unit) w)
  = logged (arg_error_events h argNumber msg d) w.
Proof.
  destruct h as [|f].
  - by rewrite call_builtin_arg_error_handler.
  - rewrite call_host_arg_error_handler.
    by destruct (host_arg_error host f argNumber (Some msg) d).
Qed.

Lemma _THArgCheck_holds (t : tid) (file : string) (line : Z)
    (condition argNumber : Z) (fmt : string) (ap : list va_arg) (w : World) :
  condition <> 0 ->
  _THArgCheck host t file line condition argNumber fmt ap w = Returned tt w.
Proof.
  intros Hc. unfold _THArgCheck. by destruct (Z.eqb_spec condition 0).
Qed.

Lemma _THArgCheck_steps (t : tid) (file : string) (line : Z)
    (argNumber : Z) (fmt : string) (ap : list va_arg) (w : World) :
  _THArgCheck host t file line 0 argNumber fmt ap w
  = match format_message fmt ap file line with
    | Fault f => Undefined f w
    | Ok msg =>
        (call_arg_error_handler host (arg_error_handler_for t w).1 argNumber
           (Some (c_str msg)) (arg_error_handler_for t w).2
         ;; TH_UNREACHABLE) w
    end.
Proof.
  unfold _THArgCheck, format_message, arg_error_handler_for, bind, lift,
    read, ret.
  change (0 =? 0) with true. cbv iota.
  destruct (snprintf (uninit 2048) 0 2048 fmt ap) as [[msg n]|f]; [| done].
  destruct (n <? 2048).
  - destruct (snprintf msg n _ _ _) as [[msg' k]|f]; [| done].
    simpl. by destruct (threadArgErrorHandler (tls t w)).
  - by destruct (threadArgErrorHandler (tls t w)).
Qed.

Lemma _THArgCheck_no_return (t : tid) (file : string) (line : Z)
    (argNumber : Z) (fmt : string) (ap : list va_arg) (w : World) :
  returns (_THArgCheck host t file line 0 argNumber fmt ap w) = false.
Proof.
  rewrite _THArgCheck_steps. destruct (format_message _ _ _ _); [| done].
  apply unreachable_no_return.
Qed.

Lemma _THArgCheck_events (t : tid) (file : string) (line : Z)
    (argNumber : Z) (fmt : string) (ap : list va_arg) (primary : string)
    (w : World) :
  format fmt ap = Some primary ->
  len primary <= INT_MAX ->
  events_since w (_THArgCheck host t file line 0 argNumber fmt ap w)
  = arg_error_events (arg_error_handler_for t w).1 argNumber
      (located primary file line) (arg_error_handler_for t w).2.
Proof.
  intros Hf Hmax. apply events_since_logged. rewrite _THArgCheck_steps.
  destruct (format_message_ok fmt ap file line primary Hf Hmax)
    as (msg & -> & <-).
  apply arg_error_call_final.
Qed.

(** *** Registrations *)

Lemma tls_with_tls (t t' : tid) (v : thread_vars) (w : World) :
  tls t (with_tls t' v w) = if decide (t' = t) then v else tls t w.
Proof.
  unfold tls, with_tls. simpl. rewrite lookup_insert.
  by destruct (decide (t' = t)).
Qed.

End RunFacts.

(** ** Error reporting: the message and the built-in handler *)

Section ErrorReport.
Import CStr MachInt Printf TH Notions.

Context (host : Host).

(** C3 (as amended). For every place, format and arguments whose text is
    defined, [_THError] hands one message to the handler in force: the
    primary text followed by [" at <file>:<line>"], cut to the 2047
    characters that a 2048-character array holds in front of its
    terminator. So the whole suffix is there when primary text and suffix
    fit together, only its beginning when they do not, and nothing of it
    when the primary text alone fills the array. The call does not return.
    When the built-in handler is in force it prints ["$ Error: <message>"]
    on a line and ends the process with status -1, which is not zero; for
    the format ["tensor shape mismatch: %d vs %d"] with 3 and 5 at
    core.cpp:42 the line reads
    ["$ Error: tensor shape mismatch: 3 vs 5 at core.cpp:42"]. *)
Theorem error_report_message (t : tid) (file : string) (line : Z)
    (fmt : string) (ap : list va_arg) (primary : string) (w : World) :
  format fmt ap = Some primary ->
  len primary <= INT_MAX ->
  let msg := located primary file line in
  let o := _THError host t file line fmt ap w in
  len msg <= 2047
  /\ (len primary + len (location file line) <= 2047 ->
      msg = primary +:+ location file line)
  /\ (len primary < 2047 ->
      msg = primary +:+ prefix (2047 - len primary) (location file line))
  /\ (2047 <= len primary -> msg = prefix 2047 primary)
  /\ (exists rest,
        events_since w o
        = Ev_error_handler (error_handler_for t w).1 msg
            (error_handler_for t w).2 :: rest
        /\ count is_error_handler rest = 0%nat)
  /\ returns o = false
  /\ (threadErrorHandler (tls t w) = None ->
      defaultErrorHandler w = builtin_error_handler ->
      o = Exited (-1)
            (logged [Ev_error_handler builtin_error_handler msg
                       (defaultErrorHandlerData w);
                     Ev_printf ("$ Error: " +:+ msg +:+ nl)] w)
      /\ wait_status (-1) <> 0)
  /\ _THError host 0%nat "core.cpp" 42 "tensor shape mismatch: %d vs %d"
       [va_int 3; va_int 5] World0
     = Exited (-1)
         (logged [Ev_error_handler builtin_error_handler
                    "tensor shape mismatch: 3 vs 5 at core.cpp:42" NULL;
                  Ev_printf
                    ("$ Error: tensor shape mismatch: 3 vs 5 at core.cpp:42"
                     +:+ nl)] World0).
Proof.
  intros Hf Hmax msg o.
  pose proof (len_nonneg primary) as Hp.
  pose proof (len_nonneg (location file line)) as Hl.
  pose proof (format_nul_free _ _ _ Hf) as Hnf.
  assert (o = (call_error_handler host (error_handler_for t w).1 msg
                 (error_handler_for t w).2 ;; TH_UNREACHABLE) w) as Ho
    by (by apply _THError_run).
  split_and!.
  - subst msg. unfold located. rewrite len_prefix, len_app. lia.
  - intros Hfit. subst msg. unfold located.
    apply prefix_all. rewrite len_app. lia.
  - intros Hroom. subst msg. unfold located.
    rewrite prefix_app, (prefix_all 2047 primary) by lia. done.
  - intros Hfull. subst msg. unfold located.
    rewrite prefix_app, (prefix_nonpos (2047 - len primary)) by lia.
    by rewrite app_empty_r.
  - destruct (call_error_handler_events host (error_handler_for t w).1 msg
                (error_handler_for t w).2 w) as (rest & Hfin & Hrest).
    exists rest. split.
    + apply events_since_logged. by rewrite Ho.
    + unfold count. clear -Hrest.
      induction rest as [|e rest IH]; [done |]. simpl in Hrest.
      apply andb_true_iff in Hrest as [He Hrest].
      rewrite filter_cons. destruct (decide (is_error_handler e = true)) as [E|E].
      * rewrite E in He. done.
      * by apply IH.
  - subst o. apply _THError_no_return.
  - intros Hthread Hdefault. rewrite Ho. unfold error_handler_for.
    rewrite Hthread, Hdefault. simpl. rewrite call_builtin_error_handler.
    rewrite cut_nul_free by by apply nul_free_located. done.
  - vm_compute. reflexivity.
Qed.

End ErrorReport.

(** The theorem at the example of the specification. *)
Lemma error_report_message_witness :
  Printf.format "tensor shape mismatch: %d vs %d"
    [Printf.va_int 3; Printf.va_int 5]
  = Some "tensor shape mismatch: 3 vs 5"
  /\ CStr.len "tensor shape mismatch: 3 vs 5" <= MachInt.INT_MAX
  /\ TH.returns (TH._THError Notions.quiet_host 0%nat "core.cpp" 42
                   "tensor shape mismatch: %d vs %d"
                   [Printf.va_int 3; Printf.va_int 5] TH.World0) = false.
Proof.
  split; [reflexivity |]. split; [vm_compute; congruence |].
  apply (error_report_message Notions.quiet_host 0%nat "core.cpp" 42
           "tensor shape mismatch: %d vs %d"
           [Printf.va_int 3; Printf.va_int 5]
           "tensor shape mismatch: 3 vs 5" TH.World0).
  - reflexivity.
  - vm_compute; congruence.
Defined.

(** C3 as stated fails: a primary text of 2040 characters leaves room in the
    array, yet the message carries only the first seven characters of the
    suffix [" at core.cpp:42"]. *)
Lemma suffix_cut_short :
  let primary := Notions.xs 2040 in
  Printf.format primary [] = Some primary
  /\ CStr.len primary < 2047
  /\ TH.events_since TH.World0
       (TH._THError Notions.quiet_host 0%nat "core.cpp" 42 primary []
          TH.World0)
     = [TH.Ev_error_handler TH.builtin_error_handler
          (primary +:+ " at cor") TH.NULL;
        TH.Ev_printf ("$ Error: " +:+ primary +:+ " at cor" +:+ TH.nl)]
  /\ primary +:+ " at cor" <> primary +:+ " at core.cpp:42".
Proof.
  split_and!.
  - vm_compute. reflexivity.
  - vm_compute. reflexivity.
  - vm_compute. reflexivity.
  - intros H. apply (f_equal CStr.len) in H. vm_compute in H. congruence.
Qed.

(** ** Which handler is called *)

Section Dispatch.
Import CStr MachInt Printf TH Notions.

Context (host : Host).

Lemma error_events_tail (h : THErrorHandlerFunction) (msg : string) (d : ptr) :
  exists rest,
    error_events h msg d = Ev_error_handler h msg d :: rest
    /\ count is_error_handler rest = 0%nat
    /\ count is_arg_error_handler rest = 0%nat.
Proof. destruct h; by eexists. Qed.

Lemma arg_error_events_tail (h : THArgErrorHandlerFunction) (argNumber : Z)
    (msg : string) (d : ptr) :
  exists rest,
    arg_error_events h argNumber msg d
    = Ev_arg_error_handler h argNumber (Some msg) d :: rest
    /\ count is_error_handler rest = 0%nat
    /\ count is_arg_error_handler rest = 0%nat.
Proof. destruct h; by eexists. Qed.

Lemma error_handler_for_arg_registration (t t' : tid)
    (h : option THArgErrorHandlerFunction) (d : ptr) (w : World) :
  error_handler_for t (final (THSetArgErrorHandler t' h d w))
  = error_handler_for t w
  /\ error_handler_for t (final (THSetDefaultArgErrorHandler h d w))
     = error_handler_for t w.
Proof.
  split; [| done].
  unfold error_handler_for, THSetArgErrorHandler, modify, final.
  rewrite tls_with_tls. by destruct (decide (t' = t)) as [->|].
Qed.

Lemma arg_error_handler_for_registration (t t' : tid)
    (h : option THErrorHandlerFunction) (d : ptr) (w : World) :
  arg_error_handler_for t (final (THSetErrorHandler t' h d w))
  = arg_error_handler_for t w
  /\ arg_error_handler_for t (final (THSetDefaultErrorHandler h d w))
     = arg_error_handler_for t w.
Proof.
  split; [| done].
  unfold arg_error_handler_for, THSetErrorHandler, modify, final.
  rewrite tls_with_tls. by destruct (decide (t' = t)) as [->|].
Qed.

(** C2. An error report on thread [t] calls the override registered on [t]
    when there is one, and the process-wide default otherwise, each with the
    data registered along with it; a failed argument check does the same
    with the handlers for argument errors. The two registrations do not
    touch each other: registering a handler of one kind, on any thread or as
    the default, leaves what a report of the other kind does as it was. An
    override on another thread does not count. *)
Theorem handler_lookup (t : tid) (file : string) (line argNumber : Z)
    (fmt : string) (ap : list va_arg) (primary : string) (w : World) :
  format fmt ap = Some primary ->
  len primary <= INT_MAX ->
  let msg := located primary file line in
  let report w := events_since w (_THError host t file line fmt ap w) in
  let check w :=
    events_since w (_THArgCheck host t file line 0 argNumber fmt ap w) in
  (exists rest,
     report w
     = match threadErrorHandler (tls t w) with
       | Some h => Ev_error_handler h msg (threadErrorHandlerData (tls t w))
       | None =>
           Ev_error_handler (defaultErrorHandler w) msg
             (defaultErrorHandlerData w)
       end :: rest
     /\ count is_error_handler rest = 0%nat
     /\ count is_arg_error_handler rest = 0%nat)
  /\ (exists rest,
        check w
        = match threadArgErrorHandler (tls t w) with
          | Some h =>
              Ev_arg_error_handler h argNumber (Some msg)
                (threadArgErrorHandlerData (tls t w))
          | None =>
              Ev_arg_error_handler (defaultArgErrorHandler w) argNumber
                (Some msg) (defaultArgErrorHandlerData w)
          end :: rest
        /\ count is_error_handler rest = 0%nat
        /\ count is_arg_error_handler rest = 0%nat)
  /\ (forall t' h d,
        report (final (THSetArgErrorHandler t' h d w)) = report w
        /\ report (final (THSetDefaultArgErrorHandler h d w)) = report w)
  /\ (forall t' h d,
        check (final (THSetErrorHandler t' h d w)) = check w
        /\ check (final (THSetDefaultErrorHandler h d w)) = check w)
  /\ (forall t' h d ha da, t' <> t ->
        report (final (THSetErrorHandler t' h d w)) = report w
        /\ check (final (THSetArgErrorHandler t' ha da w)) = check w).
Proof.
  intros Hf Hmax msg report check.
  assert (forall w, report w
            = error_events (error_handler_for t w).1 msg
                (error_handler_for t w).2) as Hreport
    by (intros; by apply _THError_events).
  assert (forall w, check w
            = arg_error_events (arg_error_handler_for t w).1 argNumber msg
                (arg_error_handler_for t w).2) as Hcheck
    by (intros; by apply _THArgCheck_events).
  split_and!.
  - rewrite Hreport. unfold error_handler_for.
    destruct (threadErrorHandler (tls t w)); apply error_events_tail.
  - rewrite Hcheck. unfold arg_error_handler_for.
    destruct (threadArgErrorHandler (tls t w)); apply arg_error_events_tail.
  - intros t' h d. rewrite !Hreport.
    destruct (error_handler_for_arg_registration t t' h d w) as [-> ->].
    done.
  - intros t' h d. rewrite !Hcheck.
    destruct (arg_error_handler_for_registration t t' h d w) as [-> ->].
    done.
  - intros t' h d ha da Hother. rewrite !Hreport, !Hcheck.
    unfold error_handler_for, arg_error_handler_for, THSetErrorHandler,
      THSetArgErrorHandler, modify, final.
    rewrite !tls_with_tls. by destruct (decide (t' = t)).
Qed.

(** C4. With a condition that holds, [_THArgCheck] returns at once and
    leaves the world as it was: no handler is called. With a condition that
    fails the call does not return; when the text of the format is defined
    it hands the handler for argument errors in force the argument index
    and a message of at most 2047 characters, the very message error
    reporting builds from the same place, format and arguments. *)
Theorem arg_check (t : tid) (file : string) (line condition argNumber : Z)
    (fmt : string) (ap : list va_arg) (w : World) :
  let o := _THArgCheck host t file line condition argNumber fmt ap w in
  (condition <> 0 -> o = Returned tt w /\ events_since w o = [])
  /\ (condition = 0 ->
      returns o = false
      /\ forall primary,
          format fmt ap = Some primary ->
          len primary <= INT_MAX ->
          let msg := located primary file line in
          len msg <= 2047
          /\ (exists rest,
                events_since w o
                = Ev_arg_error_handler (arg_error_handler_for t w).1
                    argNumber (Some msg) (arg_error_handler_for t w).2
                  :: rest
                /\ count is_arg_error_handler rest = 0%nat)
          /\ (exists rest,
                events_since w (_THError host t file line fmt ap w)
                = Ev_error_handler (error_handler_for t w).1 msg
                    (error_handler_for t w).2 :: rest)).
Proof.
  intros o. split.
  - intros Hc. subst o. rewrite _THArgCheck_holds by done. split; [done |].
    unfold events_since. simpl. apply drop_all.
  - intros ->. subst o. split; [apply _THArgCheck_no_return |].
    intros primary Hf Hmax msg. split_and!.
    + subst msg. unfold located. rewrite len_prefix. lia.
    + rewrite (_THArgCheck_events _ _ _ _ _ _ _ primary) by done.
      destruct (arg_error_events_tail (arg_error_handler_for t w).1 argNumber
                  msg (arg_error_handler_for t w).2) as (rest & ? & ? & ?).
      by exists rest.
    + rewrite (_THError_events _ _ _ _ _ _ primary) by done.
      destruct (error_events_tail (error_handler_for t w).1 msg
                  (error_handler_for t w).2) as (rest & ? & ? & ?).
      by exists rest.
Qed.

End Dispatch.

(** The lookup for a report on thread 0 of the initial world. *)
Lemma handler_lookup_witness :
  Printf.format "bad size %d" [Printf.va_int 7] = Some "bad size 7"
  /\ CStr.len "bad size 7" <= MachInt.INT_MAX
  /\ exists rest,
       TH.events_since TH.World0
         (TH._THError Notions.quiet_host 0%nat "f.c" 3 "bad size %d"
            [Printf.va_int 7] TH.World0)
       = TH.Ev_error_handler TH.builtin_error_handler "bad size 7 at f.c:3"
           TH.NULL :: rest.
Proof.
  split; [reflexivity |]. split; [vm_compute; congruence |].
  destruct (handler_lookup Notions.quiet_host 0%nat "f.c" 3 2 "bad size %d"
              [Printf.va_int 7] "bad size 7" TH.World0)
    as [(rest & Hrest & _) _].
  - reflexivity.
  - vm_compute; congruence.
  - exists rest. exact Hrest.
Defined.

(** The argument check for a condition that holds and for one that fails. *)
Lemma arg_check_witness :
  TH._THArgCheck Notions.quiet_host 0%nat "f.c" 3 1 2 "bad size %d"
    [Printf.va_int 7] TH.World0 = TH.Returned tt TH.World0
  /\ TH.returns
       (TH._THArgCheck Notions.quiet_host 0%nat "f.c" 3 0 2 "bad size %d"
          [Printf.va_int 7] TH.World0) = false.
Proof.
  split.
  - apply (proj1 (arg_check Notions.quiet_host 0%nat "f.c" 3 1 2
                    "bad size %d" [Printf.va_int 7] TH.World0)).
    lia.
  - apply (proj2 (arg_check Notions.quiet_host 0%nat "f.c" 3 0 2
                    "bad size %d" [Printf.va_int 7] TH.World0)).
    reflexivity.
Defined.

(** ** Assertions *)

Section Assertion.
Import CStr MachInt Printf TH Notions.

Context (host : Host).

Lemma format_assertion (exp shown : string) :
  format "Assertion `%s' failed. %s" [va_str exp; va_str shown]
  = Some ("Assertion `" +:+ cut exp +:+ "' failed. " +:+ cut shown).
Proof. unfold format. simpl. by rewrite app_empty_r. Qed.

Lemma _THAssertionFailed_no_return (t : tid) (file : string) (line : Z)
    (exp fmt : string) (ap : list va_arg) (w : World) :
  returns (_THAssertionFailed host t file line exp fmt ap w) = false.
Proof.
  unfold _THAssertionFailed, bind, lift.
  destruct (snprintf (uninit 1024) 0 1024 fmt ap); [| done].
  apply _THError_no_return.
Qed.

(** C9 (as amended). For every place, condition text, format and arguments
    whose text is defined, [_THAssertionFailed] passes the place, the
    format ["Assertion `%s' failed. %s"], the condition and the explanation
    to [_THError]; the explanation is cut to the 1023 characters that its
    1024-character array holds, so the text reported reads
    ["Assertion `<condition>' failed. <explanation>"] with the explanation
    in full only when it has at most 1023 characters. The call does not
    return, and the handler in force gets that text with its location. *)
Theorem assertion_failed (t : tid) (file : string) (line : Z)
    (exp fmt : string) (ap : list va_arg) (explanation : string) (w : World) :
  format fmt ap = Some explanation ->
  let shown := prefix 1023 explanation in
  let text := "Assertion `" +:+ cut exp +:+ "' failed. " +:+ shown in
  let o := _THAssertionFailed host t file line exp fmt ap w in
  o = _THError host t file line "Assertion `%s' failed. %s"
        [va_str exp; va_str shown] w
  /\ format "Assertion `%s' failed. %s" [va_str exp; va_str shown]
     = Some text
  /\ (len explanation <= 1023 -> shown = explanation)
  /\ returns o = false
  /\ (len text <= INT_MAX ->
      events_since w o
      = error_events (error_handler_for t w).1 (located text file line)
          (error_handler_for t w).2).
Proof.
  intros Hf shown text o.
  pose proof (format_nul_free _ _ _ Hf) as Hnf.
  assert (nul_free shown = true) as Hshown by by apply nul_free_prefix.
  assert (o = _THError host t file line "Assertion `%s' failed. %s"
                [va_str exp; va_str shown] w) as Ho.
  { subst o. unfold _THAssertionFailed, bind, lift.
    destruct (snprintf_behind EmptyString (uninit 1024) 1024 fmt ap
                explanation Hf) as (rest & Hs & _).
    { rewrite length_uninit. lia. }
    change (bytes EmptyString ++ uninit 1024) with (uninit 1024) in Hs.
    change (len EmptyString) with 0 in Hs. rewrite app_nil_s in Hs.
    rewrite Hs. simpl. by rewrite c_str_bytes. }
  assert (format "Assertion `%s' failed. %s" [va_str exp; va_str shown]
          = Some text) as Htext.
  { rewrite format_assertion. subst text. by rewrite (cut_nul_free shown). }
  split_and!; try done.
  - intros Hshort. by apply prefix_all.
  - apply _THAssertionFailed_no_return.
  - intros Hmax. rewrite Ho. by apply _THError_events.
Qed.

End Assertion.

(** A failed assertion with a short explanation. *)
Lemma assertion_failed_witness :
  Printf.format "n was %d" [Printf.va_int (-4)] = Some "n was -4"
  /\ TH._THAssertionFailed Notions.quiet_host 0%nat "a.c" 7 "n > 0"
       "n was %d" [Printf.va_int (-4)] TH.World0
     = TH._THError Notions.quiet_host 0%nat "a.c" 7
         "Assertion `%s' failed. %s"
         [Printf.va_str "n > 0"; Printf.va_str "n was -4"] TH.World0.
Proof.
  split; [reflexivity |].
  apply (assertion_failed Notions.quiet_host 0%nat "a.c" 7 "n > 0"
           "n was %d" [Printf.va_int (-4)] "n was -4" TH.World0).
  reflexivity.
Defined.

(** C9 as stated fails: of an explanation of 1024 characters the message
    carries 1023. *)
Lemma explanation_cut_short :
  let explanation := Notions.xs 1024 in
  Printf.format explanation [] = Some explanation
  /\ TH.events_since TH.World0
       (TH._THAssertionFailed Notions.quiet_host 0%nat "a.c" 7 "n > 0"
          explanation [] TH.World0)
     = Notions.error_events TH.builtin_error_handler
         ("Assertion `n > 0' failed. " +:+ Notions.xs 1023 +:+ " at a.c:7")
         TH.NULL
  /\ "Assertion `n > 0' failed. " +:+ Notions.xs 1023 +:+ " at a.c:7"
     <> "Assertion `n > 0' failed. " +:+ explanation +:+ " at a.c:7".
Proof.
  split_and!.
  - vm_compute. reflexivity.
  - vm_compute. reflexivity.
  - intros H. apply (f_equal CStr.len) in H. vm_compute in H. congruence.
Qed.

(** ** Registration of the default handler *)

Section Registration.
Import CStr MachInt Printf TH Notions.

(** C8 (as amended). Whatever was registered before,
    [THSetDefaultErrorHandler] with an absent handler makes the built-in
    handler the process-wide default, and with a handler makes that handler
    the default; in both cases the data passed in the call becomes the data
    of the default, replacing the data registered before. Nothing else
    changes, and the call returns. *)
Theorem set_default_error_handler (new_handler : option THErrorHandlerFunction)
    (data : ptr) (w : World) :
  exists w',
    THSetDefaultErrorHandler new_handler data w = Returned tt w'
    /\ defaultErrorHandler w'
       = match new_handler with
         | None => builtin_error_handler
         | Some h => h
         end
    /\ defaultErrorHandlerData w' = data
    /\ defaultArgErrorHandler w' = defaultArgErrorHandler w
    /\ defaultArgErrorHandlerData w' = defaultArgErrorHandlerData w
    /\ thread_local w' = thread_local w
    /\ realloc_answers w' = realloc_answers w
    /\ alloc_cpu_answers w' = alloc_cpu_answers w
    /\ trace w' = trace w.
Proof.
  eexists. split; [reflexivity |]. simpl. by destruct new_handler.
Qed.

End Registration.

(** C8 as stated fails: data registered earlier does not survive a reset of
    the default handler. *)
Lemma default_data_replaced :
  let w1 :=
    TH.final (TH.THSetDefaultErrorHandler
                (Some (TH.host_error_handler 4096)) 7 TH.World0) in
  let w2 := TH.final (TH.THSetDefaultErrorHandler None 9 w1) in
  TH.defaultErrorHandlerData w1 = 7
  /\ TH.defaultErrorHandler w2 = TH.builtin_error_handler
  /\ TH.defaultErrorHandlerData w2 = 9
  /\ TH.defaultErrorHandlerData w2 <> TH.defaultErrorHandlerData w1.
Proof. by vm_compute. Qed.

(** ** Allocation *)

Section Allocation.
Import CStr MachInt Printf TH Notions.

Context (host : Host).

(** Once a computation has failed to return, what follows it does not run. *)
Lemma bind_stops {A B} (m : M A) (k : A -> M B) (w : World) :
  returns (m w) = false ->
  returns ((x <- m ;; k x) w) = false
  /\ final ((x <- m ;; k x) w) = final (m w).
Proof. unfold bind. by destruct (m w). Qed.

Lemma format_invalid_size :
  format invalid_size_text [] = Some invalid_size_text
  /\ len invalid_size_text <= INT_MAX.
Proof. split; [reflexivity | by vm_compute]. Qed.

Lemma format_no_memory (size : Z) :
  format
    "$ Torch: not enough memory: you tried to reallocate %dGB. Buy new RAM!"
    [va_int (size ÷ 1073741824)] = Some (no_memory_text size)
  /\ len (no_memory_text size) <= INT_MAX.
Proof.
  split; [reflexivity |]. unfold no_memory_text. rewrite !len_app.
  pose proof (len_dec (sint 32 (size ÷ 1073741824))).
  change (len "$ Torch: not enough memory: you tried to reallocate ") with 52.
  change (len "GB. Buy new RAM!") with 16. unfold INT_MAX. lia.
Qed.

(** What a fatal error of the allocator does, whatever follows it. *)
Lemma THError_then {B} (t : tid) (line : Z) (fmt : string)
    (ap : list va_arg) (primary : string) (k : unit -> M B) (w : World) :
  format fmt ap = Some primary ->
  len primary <= INT_MAX ->
  let o := (x <- THError host t line fmt ap ;; k x) w in
  returns o = false
  /\ final o
     = logged (error_events (error_handler_for t w).1
                 (located primary (this_file host) line)
                 (error_handler_for t w).2) w.
Proof.
  intros Hf Hmax o. unfold THError in o.
  destruct (bind_stops (_THError host t (this_file host) line fmt ap) k w)
    as [Hr Hfin]; [apply _THError_no_return |].
  split; [done |]. subst o. rewrite Hfin.
  rewrite (_THError_run _ _ _ _ _ _ primary) by done. apply error_call_final.
Qed.

Lemma realloc_run (p : ptr) (size : Z) (w : World) :
  realloc p size w
  = Returned (hd NULL (realloc_answers w))
      (with_realloc_answers (tl (realloc_answers w))
         (logged [Ev_realloc p size] w)).
Proof.
  unfold realloc, bind, read, modify, ret. rewrite emit_logged. simpl.
  destruct (realloc_answers w) as [|q l] eqn:E; simpl; [| done].
  unfold with_realloc_answers, logged, with_trace. simpl. by rewrite E.
Qed.

Lemma alloc_cpu_trace (size : Z) (w : World) :
  trace (final (alloc_cpu size w)) = trace w ++ [Ev_alloc_cpu size].
Proof.
  unfold alloc_cpu, bind, read, modify, ret. rewrite emit_logged. simpl.
  destruct (alloc_cpu_answers w) as [|[q|] l]; done.
Qed.

Lemma THRealloc_null (t : tid) (size : Z) (w : World) :
  THRealloc host t NULL size w = THAlloc host t size w.
Proof. reflexivity. Qed.

Lemma THAlloc_nonneg (t : tid) (size : Z) (w : World) :
  0 <= size -> THAlloc host t size w = alloc_cpu size w.
Proof.
  intros Hs. unfold THAlloc, bind, ret.
  by destruct (Z.ltb_spec size 0); [lia |].
Qed.

Lemma THRealloc_zero (t : tid) (p : ptr) (w : World) :
  p <> NULL ->
  THRealloc host t p 0 w = Returned NULL (logged [Ev_free p] w).
Proof.
  intros Hp. unfold THRealloc.
  by destruct (Z.eqb_spec p NULL).
Qed.

(** C6. For a pointer that is not null, [THRealloc] with size zero frees the
    pointer and returns NULL; freeing is the only event, so no error is
    raised, and nothing else changes. *)
Theorem realloc_to_zero (t : tid) (p : ptr) (w : World) :
  p <> NULL ->
  let o := THRealloc host t p 0 w in
  o = Returned NULL (logged [Ev_free p] w)
  /\ events_since w o = [Ev_free p]
  /\ raised (events_since w o) = false.
Proof.
  intros Hp o. assert (o = Returned NULL (logged [Ev_free p] w)) as Ho
    by by apply THRealloc_zero.
  assert (events_since w o = [Ev_free p]) as Hev
    by (apply events_since_logged; by rewrite Ho).
  split_and!; [done | done |]. by rewrite Hev.
Qed.

(** C7. For a negative size, [THAlloc] raises a fatal error through
    [_THError]: the handler in force gets the text about an invalid memory
    size. The call does not return, and [c10::alloc_cpu] is not called. *)
Theorem alloc_negative (t : tid) (size : Z) (w : World) :
  size < 0 ->
  let o := THAlloc host t size w in
  returns o = false
  /\ events_since w o
     = error_events (error_handler_for t w).1
         (located invalid_size_text (this_file host) 165)
         (error_handler_for t w).2
  /\ raised (events_since w o) = true
  /\ count is_alloc_cpu (events_since w o) = 0%nat.
Proof.
  intros Hs o. subst o. unfold THAlloc.
  destruct (Z.ltb_spec size 0); [| lia].
  destruct format_invalid_size as [Hf Hmax].
  destruct (THError_then t 165 invalid_size_text [] invalid_size_text
              (fun _ => alloc_cpu size) w Hf Hmax) as [Hr Hfin].
  apply events_since_logged in Hfin. fold invalid_size_text.
  rewrite Hfin. split_and!; [done | done | |];
    by destruct (error_handler_for t w).1.
Qed.

(** C10. With a null pointer [THRealloc] is [THAlloc], also for size zero:
    the call of [THRealloc] with NULL and 0 is [c10::alloc_cpu] for zero
    bytes and nothing is freed. Freeing and returning NULL is what size
    zero does for the other pointers only. *)
Theorem realloc_null_zero (t : tid) (w : World) :
  let o := THRealloc host t NULL 0 w in
  o = THAlloc host t 0 w
  /\ o = alloc_cpu 0 w
  /\ events_since w o = [Ev_alloc_cpu 0]
  /\ count is_free (events_since w o) = 0%nat
  /\ o <> Returned NULL (logged [Ev_free NULL] w)
  /\ forall p, p <> NULL ->
       THRealloc host t p 0 w = Returned NULL (logged [Ev_free p] w).
Proof.
  intros o.
  assert (o = alloc_cpu 0 w) as Ho
    by (subst o; by rewrite THRealloc_null, THAlloc_nonneg).
  assert (events_since w o = [Ev_alloc_cpu 0]) as Hev
    by (apply events_since_app; rewrite Ho; apply alloc_cpu_trace).
  split_and!; try done.
  - by rewrite Hev.
  - intros Heq. rewrite Heq in Hev.
    rewrite (events_since_logged w _ [Ev_free NULL]) in Hev; done.
  - intros p Hp. by apply THRealloc_zero.
Qed.

End Allocation.

(** Reallocation of the pointer 4096 to size zero. *)
Lemma realloc_to_zero_witness :
  (4096 : TH.ptr) <> TH.NULL
  /\ TH.THRealloc Notions.quiet_host 0%nat 4096 0 TH.World0
     = TH.Returned TH.NULL (Notions.logged [TH.Ev_free 4096] TH.World0).
Proof.
  split; [by vm_compute |].
  apply (realloc_to_zero Notions.quiet_host 0%nat 4096 TH.World0).
  by vm_compute.
Defined.

(** Allocation of -8 bytes. *)
Lemma alloc_negative_witness :
  -8 < 0
  /\ TH.returns (TH.THAlloc Notions.quiet_host 0%nat (-8) TH.World0) = false.
Proof.
  split; [lia |].
  apply (alloc_negative Notions.quiet_host 0%nat (-8) TH.World0). lia.
Defined.

(** ** Reallocation that the system refuses *)

Section Refusal.
Import CStr MachInt Printf TH Notions.

Context (host : Host).

Lemma world_after_retry (l : list ptr) (e1 e2 e3 : list event) (w : World) :
  with_realloc_answers
    (tl (realloc_answers (logged e2 (with_realloc_answers l (logged e1 w)))))
    (logged e3 (logged e2 (with_realloc_answers l (logged e1 w))))
  = with_realloc_answers (tl l) (logged (e1 ++ e2 ++ e3) w).
Proof.
  unfold logged, with_realloc_answers, with_trace. simpl.
  by rewrite <- !app_assoc.
Qed.

(** [THRealloc] for a pointer that is not null and a positive size, spelled
    out by what the system answers. *)
Lemma THRealloc_positive (t : tid) (p : ptr) (size : Z) (w : World) :
  p <> NULL ->
  0 < size ->
  THRealloc host t p size w
  = let a := realloc_answers w in
    let no_memory :=
      x <- THError host t 192
             "$ Torch: not enough memory: you tried to reallocate %dGB. Buy new RAM!"
             [va_int (size ÷ 1073741824)] ;;
      ret NULL in
    if hd NULL a =? NULL then
      match torchGCFunction (tls t w) with
      | Some gc =>
          let w2 :=
            with_realloc_answers (tl (tl a))
              (logged [Ev_realloc p size; Ev_gc gc (torchGCData (tls t w));
                       Ev_realloc p size] w) in
          if hd NULL (tl a) =? NULL then no_memory w2
          else Returned (hd NULL (tl a)) w2
      | None =>
          no_memory
            (with_realloc_answers (tl a) (logged [Ev_realloc p size] w))
      end
    else
      Returned (hd NULL a)
        (with_realloc_answers (tl a) (logged [Ev_realloc p size] w)).
Proof.
  intros Hp Hs. unfold THRealloc.
  destruct (Z.eqb_spec p NULL) as [|_]; [done |].
  destruct (Z.eqb_spec size 0) as [|_]; [lia |].
  destruct (Z.ltb_spec size 0) as [|_]; [lia |].
  unfold bind at 1. unfold ret at 1. unfold bind at 1.
  rewrite realloc_run. unfold bind at 1. unfold read at 1.
  cbv zeta.
  change (tls t (with_realloc_answers (tl (realloc_answers w))
                   (logged [Ev_realloc p size] w))) with (tls t w).
  destruct (Z.eqb_spec (hd NULL (realloc_answers w)) NULL) as [Hq|Hq].
  - destruct (torchGCFunction (tls t w)) as [gc|].
    + unfold bind at 1. unfold bind at 1.
      rewrite emit_logged, realloc_run, world_after_retry.
      change (hd NULL (realloc_answers (logged _ (with_realloc_answers _ _))))
        with (hd NULL (tl (realloc_answers w))).
      destruct (Z.eqb_spec (hd NULL (tl (realloc_answers w))) NULL) as [E|E].
      * rewrite E. reflexivity.
      * unfold bind, ret. reflexivity.
    + unfold bind at 1. unfold ret at 1. rewrite Hq.
      change (NULL =? NULL) with true. cbv iota. reflexivity.
  - unfold bind at 1. unfold ret at 1.
    destruct (Z.eqb_spec (hd NULL (realloc_answers w)) NULL) as [|_]; [done |].
    unfold bind, ret. reflexivity.
Qed.

Lemma no_memory_run (t : tid) (size : Z) (l : list ptr) (evs : list event)
    (w : World) :
  let o :=
    (x <- THError host t 192
            "$ Torch: not enough memory: you tried to reallocate %dGB. Buy new RAM!"
            [va_int (size ÷ 1073741824)] ;;
     ret NULL) (with_realloc_answers l (logged evs w)) in
  returns o = false
  /\ events_since w o
     = evs ++ error_events (error_handler_for t w).1
                (located (no_memory_text size) (this_file host) 192)
                (error_handler_for t w).2.
Proof.
  intros o. destruct (format_no_memory size) as [Hf Hmax].
  destruct (THError_then host t 192 _ _ _ (fun _ => ret NULL)
              (with_realloc_answers l (logged evs w)) Hf Hmax) as [Hr Hfin].
  split; [done |]. apply events_since_app. subst o. rewrite Hfin.
  unfold logged, with_realloc_answers, with_trace. simpl.
  by rewrite <- app_assoc.
Qed.

Lemma count_app (f : event -> bool) (a b : list event) :
  count f (a ++ b) = (count f a + count f b)%nat.
Proof. unfold count. by rewrite filter_app, length_app. Qed.

Lemma raised_app (a b : list event) : raised (a ++ b) = raised a || raised b.
Proof. apply existsb_app. Qed.

Lemma error_events_counts (h : THErrorHandlerFunction) (msg : string)
    (d : ptr) :
  count is_gc (error_events h msg d) = 0%nat
  /\ count is_realloc (error_events h msg d) = 0%nat
  /\ raised (error_events h msg d) = true.
Proof. by destruct h. Qed.

(** C1. Take a pointer that is not null, a positive size, and a system that
    refuses the reallocation. With a collector hook registered on the
    thread, the hook is called once, between the first attempt and one
    second attempt; the fatal error is raised exactly when the second
    attempt is refused too, and otherwise the pointer it gives is returned.
    With no hook there is one attempt, no second one, and the fatal error
    is raised at once. Whenever the fatal error is raised the call does not
    return; a result that is returned is never null. *)
Theorem realloc_refused (t : tid) (p : ptr) (size : Z) (w : World) :
  p <> NULL ->
  0 < size ->
  hd NULL (realloc_answers w) = NULL ->
  let o := THRealloc host t p size w in
  let evs := events_since w o in
  let second := hd NULL (tl (realloc_answers w)) in
  let fatal :=
    error_events (error_handler_for t w).1
      (located (no_memory_text size) (this_file host) 192)
      (error_handler_for t w).2 in
  match torchGCFunction (tls t w) with
  | Some gc =>
      let attempts :=
        [Ev_realloc p size; Ev_gc gc (torchGCData (tls t w));
         Ev_realloc p size] in
      count is_gc evs = 1%nat
      /\ count is_realloc evs = 2%nat
      /\ (second = NULL -> evs = attempts ++ fatal)
      /\ (second <> NULL ->
          evs = attempts
          /\ o = Returned second
                   (with_realloc_answers (tl (tl (realloc_answers w)))
                      (logged attempts w)))
      /\ (raised evs = true <-> second = NULL)
  | None =>
      count is_gc evs = 0%nat
      /\ count is_realloc evs = 1%nat
      /\ evs = Ev_realloc p size :: fatal
      /\ raised evs = true
  end
  /\ (raised evs = true -> returns o = false)
  /\ (forall q w', o = Returned q w' -> q <> NULL /\ raised evs = false).
Proof.
  intros Hp Hs Hfirst o evs second fatal.
  destruct (error_events_counts (error_handler_for t w).1
              (located (no_memory_text size) (this_file host) 192)
              (error_handler_for t w).2) as (Hgc & Hre & Hraised).
  fold fatal in Hgc, Hre, Hraised.
  assert (o = THRealloc host t p size w) as Ho by done.
  rewrite THRealloc_positive in Ho by done. cbv zeta in Ho.
  rewrite Hfirst in Ho. change (NULL =? NULL) with true in Ho. cbv iota in Ho.
  destruct (torchGCFunction (tls t w)) as [gc|].
  - fold second in Ho.
    destruct (Z.eqb_spec second NULL) as [Hsecond|Hsecond].
    + destruct (no_memory_run t size (tl (tl (realloc_answers w)))
                  [Ev_realloc p size; Ev_gc gc (torchGCData (tls t w));
                   Ev_realloc p size] w) as [Hr Hev].
      rewrite <- Ho in Hr, Hev. fold evs fatal in Hev.
      rewrite Hev. rewrite !count_app, !raised_app, Hgc, Hre, Hraised.
      split_and!; try done.
      intros q w' Hq. rewrite Hq in Hr. done.
    + assert (evs = [Ev_realloc p size; Ev_gc gc (torchGCData (tls t w));
                     Ev_realloc p size]) as Hev.
      { apply events_since_app. by rewrite Ho. }
      rewrite Hev. split_and!; try done.
      intros q w' Hq. rewrite Ho in Hq. by simplify_eq.
  - destruct (no_memory_run t size (tl (realloc_answers w))
                [Ev_realloc p size] w) as [Hr Hev].
    rewrite <- Ho in Hr, Hev. fold evs fatal in Hev.
    rewrite Hev. simpl app.
    change (Ev_realloc p size :: fatal) with ([Ev_realloc p size] ++ fatal).
    rewrite !count_app, !raised_app, Hgc, Hre, Hraised.
    split_and!; try done.
    intros q w' Hq. rewrite Hq in Hr. done.
Qed.

End Refusal.

(** A refused reallocation with a hook registered: the hook is called once. *)
Lemma realloc_refused_witness :
  (4096 : TH.ptr) <> TH.NULL
  /\ 0 < 100
  /\ hd TH.NULL (TH.realloc_answers Notions.hooked_world) = TH.NULL
  /\ TH.count TH.is_gc
       (TH.events_since Notions.hooked_world
          (TH.THRealloc Notions.quiet_host 0%nat 4096 100
             Notions.hooked_world)) = 1%nat.
Proof.
  split; [by vm_compute |]. split; [lia |]. split; [reflexivity |].
  destruct (realloc_refused Notions.quiet_host 0%nat 4096 100
              Notions.hooked_world) as [H _].
  - by vm_compute.
  - lia.
  - reflexivity.
  - exact (proj1 H).
Defined.


(** ** Shape text *)

Section ShapeText.
Import CStr MachInt Printf TH Notions.

Example size_desc_2_3_4 :
  desc_text (_THSizeDesc 64 [2; 3; 4] 3) = Some "[2 x 3 x 4]"
  /\ shape_text [2; 3; 4] = "[2 x 3 x 4]".
Proof. by vm_compute. Qed.

(** A text of 63 characters would fit a buffer of 64 with its terminator,
    but the test [n < L - 2] sends it to the branch that cuts. *)
Example size_desc_cut_at_63 :
  len (shape_text (replicate 16 1)) = 63
  /\ desc_text (_THSizeDesc 64 (replicate 16 1) 16)
     = Some (prefix 59 (shape_text (replicate 16 1)) +:+ "...]").
Proof. by vm_compute. Qed.

(** A long shape that stays inside the buffer ends in ["...]"] and fills
    the 63 characters. *)
Example size_desc_long :
  option_map len (desc_text (_THSizeDesc 64 (replicate 40 1) 40)) = Some 63
  /\ option_map (ends_with "...]")
       (desc_text (_THSizeDesc 64 (replicate 40 1) 40)) = Some true.
Proof. by vm_compute. Qed.

(** A print at an offset inside the array, with the room left as its size,
    stays inside the array. *)
Lemma snprintf_within (L : Z) (str : list ascii) (n : Z) (fmt : string)
    (ap : list va_arg) (text : string) :
  Z.of_nat (length str) = L ->
  0 <= n < L ->
  L <= INT_MAX ->
  format fmt ap = Some text ->
  exists str',
    snprintf str n (to_size_t (L - n)) fmt ap = Ok (str', printed text)
    /\ Z.of_nat (length str') = L.
Proof.
  intros Hlen Hn HL Hf. unfold snprintf. rewrite Hf.
  assert (to_size_t (L - n) = L - n) as ->.
  { unfold to_size_t, INT_MAX in *. rewrite Z.mod_small; lia. }
  destruct (Z.eqb_spec (L - n) 0) as [|_]; [lia |].
  set (bs := bytes (prefix (L - n - 1) text) ++ [NUL]).
  assert (Z.of_nat (length bs) <= L - n) as Hbs.
  { subst bs. rewrite length_app, Nat2Z.inj_add, length_bytes, len_prefix.
    simpl. pose proof (len_nonneg text). lia. }
  unfold store. rewrite bool_decide_eq_true_2 by lia.
  eexists. split; [reflexivity |].
  rewrite !length_app, length_take, length_drop. lia.
Qed.

(** A print that starts past the end of the array, with a size that is not
    zero, leaves the array. *)
Lemma snprintf_past (str : list ascii) (n size : Z) (fmt : string)
    (ap : list va_arg) (text : string) :
  Z.of_nat (length str) < n ->
  size <> 0 ->
  format fmt ap = Some text ->
  snprintf str n size fmt ap = Fault OutOfBounds.
Proof.
  intros Hn Hsize Hf. unfold snprintf. rewrite Hf.
  destruct (Z.eqb_spec size 0) as [|_]; [done |].
  unfold store. rewrite bool_decide_eq_false_2; [done | lia].
Qed.

(** The rounds for [m] dimensions of size 1 that are followed by another
    dimension, while the text stays well inside the array: each adds four
    characters. *)
Lemma size_loop_ones (L : Z) (size : list Z) (ndim : Z) (m : nat) :
  forall (i : Z) (idx : list Z) (str : list ascii),
    L <= INT_MAX ->
    Z.of_nat (length str) = L ->
    0 <= i ->
    (forall j, i <= j < i + Z.of_nat m -> size !! Z.to_nat j = Some 1) ->
    i + Z.of_nat m < ndim ->
    1 + 4 * (i + Z.of_nat m) <= L ->
    exists str',
      size_loop L (seqZ i (Z.of_nat m) ++ idx) size ndim str (1 + 4 * i)
      = size_loop L idx size ndim str' (1 + 4 * (i + Z.of_nat m))
      /\ Z.of_nat (length str') = L.
Proof.
  induction m as [|m IH]; intros i idx str HL Hlen Hi Hsize Hnd Hroom.
  - exists str. split; [| done]. simpl. do 2 f_equal. lia.
  - rewrite seqZ_cons by lia. simpl app. cbn [size_loop].
    destruct (Z.geb_spec (1 + 4 * i) L) as [|_]; [lia |].
    rewrite Hsize by lia.
    destruct (snprintf_within L str (1 + 4 * i) ("%" +:+ PRId64) [va_int 1]
                "1") as (str1 & -> & Hlen1); [done | lia | done | done |].
    change (printed "1") with 1.
    destruct (Z.ltb_spec i (ndim - 1)) as [_|]; [| lia].
    destruct (snprintf_within L str1 (1 + 4 * i + 1) " x " [] " x ")
      as (str2 & -> & Hlen2); [done | lia | done | done |].
    change (printed " x ") with 3.
    destruct (IH (Z.succ i) idx str2) as (str' & Heq & Hlen');
      try done; try lia.
    { intros j Hj. apply Hsize. lia. }
    exists str'. split; [| done].
    replace (Z.pred (Z.of_nat (S m))) with (Z.of_nat m) by lia.
    replace (1 + 4 * i + 1 + 3) with (1 + 4 * Z.succ i) by lia.
    rewrite Heq. do 2 f_equal. lia.
Qed.

(** Whatever the length of the buffer, from 6 characters on, there is a
    shape for which [_THSizeDesc] writes past its end. *)
Lemma size_desc_crossing (L : Z) :
  6 <= L <= INT_MAX ->
  _THSizeDesc L (crossing_shape L) (Z.of_nat (length (crossing_shape L)))
  = Fault OutOfBounds.
Proof.
  intros HL. unfold _THSizeDesc, crossing_shape.
  set (k := Z.to_nat ((L - 2) / 4)).
  assert (4 * Z.of_nat k <= L - 2 < 4 * Z.of_nat k + 4) as Hk.
  { subst k. rewrite Z2Nat.id by (apply Z.div_pos; lia).
    pose proof (Z.div_mod (L - 2) 4). pose proof (Z.mod_pos_bound (L - 2) 4).
    lia. }
  rewrite length_app, length_replicate. cbn [length].
  set (size := replicate k 1 ++ [10000; 1]).
  set (ndim := Z.of_nat (k + 2)).
  destruct (snprintf_within L (uninit (Z.to_nat L)) 0 "[" [] "[")
    as (str1 & Hs1 & Hlen1); [rewrite length_uninit; lia | lia | lia | done |].
  rewrite Z.sub_0_r in *. rewrite Hs1. change (printed "[") with 1.
  assert (seqZ 0 ndim = seqZ 0 (Z.of_nat k) ++ [Z.of_nat k; Z.of_nat k + 1])
    as ->.
  { subst ndim. replace (Z.of_nat (k + 2)) with (Z.of_nat k + 2) by lia.
    rewrite seqZ_app by lia. f_equal. rewrite Z.add_0_l.
    rewrite seqZ_cons by lia. f_equal. }
  destruct (size_loop_ones L size ndim k 0 [Z.of_nat k; Z.of_nat k + 1] str1)
    as (str2 & Hloop & Hlen2); try done; try lia.
  { intros j Hj. subst size. rewrite lookup_app_l.
    - apply lookup_replicate_2. lia.
    - rewrite length_replicate. lia. }
  change (0 + 1) with (1 + 4 * 0). rewrite Hloop. clear Hloop.
  cbn [size_loop].
  destruct (Z.geb_spec (1 + 4 * (0 + Z.of_nat k)) L) as [|_]; [lia |].
  assert (size !! Z.to_nat (Z.of_nat k) = Some 10000) as ->.
  { subst size. rewrite Nat2Z.id, lookup_app_r by by rewrite length_replicate.
    by rewrite length_replicate, Nat.sub_diag. }
  destruct (snprintf_within L str2 (1 + 4 * (0 + Z.of_nat k)) ("%" +:+ PRId64)
              [va_int 10000] "10000") as (str3 & -> & Hlen3);
    [done | lia | lia | done |].
  change (printed "10000") with 5.
  destruct (Z.ltb_spec (Z.of_nat k) (ndim - 1)) as [_|]; [| subst ndim; lia].
  rewrite (snprintf_past str3 _ _ " x " [] " x "); [done | lia | | done].
  unfold to_size_t. unfold INT_MAX in *.
  rewrite <- (Z_mod_plus_full _ 1 (2 ^ 64)). rewrite Z.mod_small; lia.
Qed.

(** *** Runs that stay inside the buffer *)

Lemma prefix_prefix (k m : Z) (s : string) :
  k <= m -> prefix k (prefix m s) = prefix k s.
Proof.
  revert k m. induction s as [|c s IH]; intros k m Hkm; [done |].
  destruct (Z.leb_spec k 0) as [Hk|Hk].
  - by rewrite !prefix_nonpos.
  - simpl. destruct (Z.leb_spec m 0); [lia |]. simpl.
    destruct (Z.leb_spec k 0); [lia |]. rewrite IH; [done | lia].
Qed.

(** Overwriting an array from an offset inside the string it holds. *)
Lemma c_str_overwrite (str tail : list ascii) (k : Z) :
  0 <= k <= len (c_str str) ->
  c_str (take (Z.to_nat k) str ++ tail) = prefix k (c_str str) +:+ c_str tail.
Proof.
  revert k. induction str as [|c str IH]; intros k Hk.
  - simpl in *. rewrite len_empty in Hk. by rewrite take_nil.
  - simpl in Hk. simpl c_str at 2. destruct (is_nul c) eqn:Hc.
    + rewrite len_empty in Hk. assert (k = 0) as -> by lia. done.
    + rewrite len_cons in Hk. simpl prefix.
      destruct (Z.leb_spec k 0).
      * assert (k = 0) as -> by lia. done.
      * replace (Z.to_nat k) with (S (Z.to_nat (k - 1))) by lia.
        simpl. rewrite Hc, app_cons_s. f_equal. apply IH. lia.
Qed.

Lemma format_PRId64 (d : Z) :
  format ("%" +:+ PRId64) [va_int d] = Some (dec (sint 64 d)).
Proof. unfold format. simpl. by rewrite app_empty_r. Qed.

(** One print of the rounds: it keeps the state, and it can only have been
    made at or before the end of the array. *)
Lemma desc_step (L : Z) (str : list ascii) (T : string) (fmt : string)
    (ap : list va_arg) (text : string) (str' : list ascii) (k : Z) :
  1 <= L <= INT_MAX ->
  desc_state L str T ->
  len T <= L + INT_MAX ->
  format fmt ap = Some text ->
  len text <= INT_MAX ->
  snprintf str (len T) (to_size_t (L - len T)) fmt ap = Ok (str', k) ->
  k = len text /\ desc_state L str' (T +:+ text) /\ len T <= L.
Proof.
  intros HL (Hlen & Hnf & Hstr & Hhead) Hbound Hf Htext Hs.
  pose proof (format_nul_free _ _ _ Hf) as Hnft.
  pose proof (len_nonneg T) as HT. pose proof (len_nonneg text) as Ht.
  assert (printed text = len text) as Hprinted.
  { unfold printed. by destruct (Z.ltb_spec INT_MAX (len text)); [lia |]. }
  unfold INT_MAX in *.
  destruct (Z.lt_trichotomy (len T) L) as [Hlt|[Heq|Hgt]].
  - destruct (Hhead Hlt) as (rest & ->).
    rewrite length_app, Nat2Z.inj_add, length_bytes in Hlen.
    cbn [length] in Hlen.
    assert (to_size_t (L - len T) = L - len T) as Hsz.
    { unfold to_size_t. rewrite Z.mod_small; lia. }
    rewrite Hsz in Hs.
    destruct (snprintf_behind T (NUL :: rest) (L - len T) fmt ap text Hf)
      as (rest' & Hs' & Hlen'); [cbn [length]; lia |].
    rewrite Hs' in Hs. injection Hs as <- <-.
    split; [done |]. split; [| lia].
    assert (nul_free (prefix (L - len T - 1) text) = true) as Hnfp
      by by apply nul_free_prefix.
    split_and!.
    + rewrite Hlen', length_app, Nat2Z.inj_add, length_bytes.
      cbn [length]. lia.
    + by rewrite nul_free_app, Hnf, Hnft.
    + rewrite c_str_bytes by by rewrite nul_free_app, Hnf, Hnfp.
      rewrite prefix_app, (prefix_all (L - 1) T) by lia.
      do 2 f_equal. lia.
    + rewrite len_app. intros Hfit. exists rest'.
      by rewrite (prefix_all (L - len T - 1) text) by lia.
  - rewrite Heq, Z.sub_diag in Hs. unfold snprintf in Hs.
    rewrite Hf in Hs. change (to_size_t 0 =? 0) with true in Hs.
    injection Hs as <- <-.
    split; [done |]. split; [| lia]. split_and!; try done.
    + by rewrite nul_free_app, Hnf, Hnft.
    + rewrite Hstr, prefix_app.
      rewrite (prefix_nonpos (L - 1 - len T)) by lia. by rewrite app_empty_r.
    + rewrite len_app. lia.
  - rewrite (snprintf_past str _ _ fmt ap text) in Hs; [done | lia | | done].
    unfold to_size_t. rewrite <- (Z_mod_plus_full _ 1 (2 ^ 64)).
    rewrite Z.mod_small; lia.
Qed.

Lemma shape_items_more (d d' : Z) (ds : list Z) :
  shape_items (d :: d' :: ds)
  = dec (sint 64 d) +:+ " x " +:+ shape_items (d' :: ds).
Proof. reflexivity. Qed.

(** The rounds for the sizes [rem] that remain, from index [i] on: they end
    with a text [T'] that begins the whole text, and is the whole text when
    it ends inside the array. *)
Lemma size_loop_text (L : Z) (size : list Z) (ndim : Z) :
  1 <= L <= INT_MAX ->
  forall (rem : list Z) (i : Z) (str : list ascii) (T : string)
         (str' : list ascii) (n' : Z),
    desc_state L str T ->
    0 <= i ->
    i + Z.of_nat (length rem) = ndim ->
    (forall (j : nat) d,
        rem !! j = Some d -> size !! (Z.to_nat i + j)%nat = Some d) ->
    size_loop L (seqZ i (Z.of_nat (length rem))) size ndim str (len T)
    = Ok (str', n') ->
    exists T' more,
      desc_state L str' T'
      /\ n' = len T'
      /\ T' +:+ more = T +:+ shape_items rem
      /\ (len T' < L -> more = EmptyString).
Proof.
  intros HL rem.
  induction rem as [|d rem IH]; intros i str T str' n' Hst Hi Hnd Hsize Hrun.
  - simpl in Hrun. injection Hrun as <- <-.
    exists T, EmptyString. by rewrite !app_empty_r.
  - rewrite seqZ_cons in Hrun by (cbn [length]; lia). cbn [size_loop] in Hrun.
    destruct (Z.geb_spec (len T) L) as [Hfull|Hroom].
    { injection Hrun as <- <-. exists T, (shape_items (d :: rem)).
      split_and!; try done. lia. }
    rewrite <- (Nat.add_0_r (Z.to_nat i)), (Hsize 0%nat d) in Hrun by done.
    pose proof (len_dec (sint 64 d)) as Hdec.
    pose proof (len_nonneg (dec (sint 64 d))) as Hdec0.
    destruct (snprintf str (len T) (to_size_t (L - len T)) ("%" +:+ PRId64)
                [va_int d]) as [[str1 k1]|] eqn:Hs1; [| done].
    destruct (desc_step L str T _ _ _ str1 k1 HL Hst
                ltac:(unfold INT_MAX in *; lia) (format_PRId64 d)
                ltac:(unfold INT_MAX in *; lia) Hs1) as (-> & Hst1 & _).
    rewrite <- len_app in Hrun.
    replace (Z.pred (Z.of_nat (length (d :: rem))))
      with (Z.of_nat (length rem)) in Hrun by (cbn [length]; lia).
    cbn [length] in Hnd.
    destruct rem as [|d' rem]; cbn [length] in Hnd.
    + destruct (Z.ltb_spec i (ndim - 1)) as [|_]; [lia |].
      simpl in Hrun. injection Hrun as <- <-.
      exists (T +:+ dec (sint 64 d)), EmptyString.
      split_and!; try done. by rewrite app_empty_r.
    + destruct (Z.ltb_spec i (ndim - 1)) as [_|]; [| lia].
      destruct (snprintf str1 _ _ " x " []) as [[str2 k2]|] eqn:Hs2; [| done].
      destruct (desc_step L str1 _ " x " [] " x " str2 k2 HL Hst1
                  ltac:(rewrite len_app; unfold INT_MAX in *; lia) eq_refl
                  ltac:(by vm_compute) Hs2)
        as (-> & Hst2 & _).
      rewrite <- len_app in Hrun.
      destruct (IH (Z.succ i) str2 _ str' n' Hst2)
        as (T' & more & H1 & H2 & H3 & H4); try done.
      { lia. }
      { cbn [length]. lia. }
      { intros j x Hj. rewrite Z2Nat.inj_succ by lia.
        replace (S (Z.to_nat i) + j)%nat with (Z.to_nat i + S j)%nat by lia.
        by apply Hsize. }
      exists T', more. split_and!; try done.
      by rewrite H3, shape_items_more, !app_assoc_s.
Qed.

(** When no print leaves the buffer, [_THSizeDesc] gives the whole text if it
    has at most [L - 2] characters, and otherwise the first [L - 5]
    characters of it followed by ["...]"], [L - 1] characters in all. A text
    of exactly [L - 1] characters is cut although it would fit. *)
Lemma size_desc_in_bounds (L : Z) (size : list Z) (ndim : Z)
    (str : list ascii) :
  5 <= L <= INT_MAX ->
  0 <= ndim <= Z.of_nat (length size) ->
  _THSizeDesc L size ndim = Ok str ->
  let text := shape_text (take (Z.to_nat ndim) size) in
  Z.of_nat (length str) = L
  /\ len (c_str str) <= L - 1
  /\ (len text <= L - 2 /\ c_str str = text
      \/ L - 1 <= len text
         /\ c_str str = prefix (L - 5) text +:+ "...]"
         /\ len (c_str str) = L - 1).
Proof.
  intros HL Hnd Hrun text. unfold _THSizeDesc in Hrun. cbv zeta in Hrun.
  set (ds := take (Z.to_nat ndim) size) in *.
  assert (1 <= L <= INT_MAX) as HL1 by lia. unfold INT_MAX in HL.
  destruct (snprintf_behind EmptyString (uninit (Z.to_nat L)) L "[" [] "["
              eq_refl) as (rest & Hs0 & Hlen0).
  { rewrite length_uninit. lia. }
  change (bytes EmptyString ++ uninit (Z.to_nat L))
    with (uninit (Z.to_nat L)) in Hs0, Hlen0.
  change (len EmptyString) with 0 in Hs0. rewrite app_nil_s in Hs0, Hlen0.
  rewrite (prefix_all (L - 1) "[") in Hs0, Hlen0
    by (change (len "[") with 1; lia).
  rewrite length_uninit in Hlen0.
  assert (to_size_t (L - 0) = L) as Hsz.
  { unfold to_size_t. rewrite Z.sub_0_r, Z.mod_small; lia. }
  rewrite Hsz, Hs0 in Hrun. change (0 + printed "[") with (len "[") in Hrun.
  assert (desc_state L (bytes "[" ++ NUL :: rest) "[") as Hst0.
  { split_and!; [lia | done | | by exists rest].
    rewrite c_str_bytes by done.
    by rewrite prefix_all by (change (len "[") with 1; lia). }
  destruct (size_loop L (seqZ 0 ndim) size ndim _ (len "["))
    as [[str1 n1]|] eqn:Hloop; [| done].
  assert (ndim = Z.of_nat (length ds)) as Hds.
  { subst ds. rewrite length_take. lia. }
  rewrite Hds in Hloop at 1.
  destruct (size_loop_text L size ndim HL1 ds 0 _ "[" str1 n1 Hst0)
    as (T' & more & Hst1 & -> & Htext & Hmore); try done; try lia.
  { intros j d Hj. subst ds. apply lookup_take_Some in Hj as [Hj _]. done. }
  assert (text = T' +:+ more +:+ "]") as Htext'.
  { subst text. unfold shape_text. fold ds.
    rewrite <- (app_assoc_s "[" (shape_items ds) "]"), <- Htext.
    by rewrite app_assoc_s. }
  pose proof (len_nonneg T') as HT'. pose proof (len_nonneg more) as Hm.
  assert (len text = len T' + len more + 1) as Hlt.
  { rewrite Htext', !len_app. change (len "]") with 1. lia. }
  destruct Hst1 as (Hlen1 & Hnf1 & Hstr1 & Hhead1).
  destruct (Z.ltb_spec (len T') (L - 2)) as [Hshort|Hlong].
  - destruct (snprintf str1 _ _ "]" []) as [[str2 k2]|] eqn:Hs2; [| done].
    injection Hrun as <-.
    destruct (desc_step L str1 T' "]" [] "]" str2 k2 HL1
                (conj Hlen1 (conj Hnf1 (conj Hstr1 Hhead1)))
                ltac:(unfold INT_MAX; lia) eq_refl ltac:(by vm_compute) Hs2)
      as (_ & (Hlen2 & _ & Hstr2 & _) & _).
    rewrite (Hmore ltac:(lia)), app_nil_s in Htext'.
    rewrite (Hmore ltac:(lia)), len_empty in Hlt.
    rewrite <- Htext' in Hstr2.
    rewrite (prefix_all (L - 1) text) in Hstr2 by lia.
    rewrite Hstr2. split_and!; [done | lia |]. left. split; [lia | done].
  - unfold snprintf in Hrun. change (format "...]" []) with (Some "...]") in Hrun.
    change (5 =? 0) with false in Hrun. cbv iota in Hrun.
    change (bytes (prefix (5 - 1) "...]") ++ [NUL])
      with (bytes "...]" ++ [NUL]) in Hrun.
    unfold store in Hrun.
    rewrite bool_decide_eq_true_2 in Hrun by (simpl; lia).
    injection Hrun as <-.
    assert (len (c_str str1) >= L - 2) as Hheld.
    { rewrite Hstr1, len_prefix. lia. }
    rewrite c_str_overwrite by lia.
    set (r := drop (Z.to_nat (L - 5) + 5) str1).
    change (c_str ("."%char :: "."%char :: "."%char :: "]"%char :: NUL :: r))
      with "...]".
    assert (prefix (L - 5) (c_str str1) = prefix (L - 5) text) as ->.
    { rewrite Hstr1, prefix_prefix by lia.
      rewrite Htext', prefix_app.
      rewrite (prefix_nonpos (L - 5 - len T')) by lia.
      by rewrite app_empty_r. }
    assert (len (prefix (L - 5) text +:+ "...]") = L - 1) as Hout.
    { rewrite len_app, len_prefix. change (len "...]") with 4. lia. }
    split_and!.
    + subst r. rewrite length_app, length_take. cbn [length].
      rewrite length_drop. lia.
    + lia.
    + right. split_and!; [lia | done | done].
Qed.

(** C5 (the code at an input where it breaks the claim). With a buffer of 64
    characters and the shape of fifteen 1s, then 1000, then 1: after fifteen
    rounds the count stands at 61; printing 1000 into the three characters
    left brings it to 65 without leaving the loop; the separator is then
    printed at offset 65 with the size [64 - 65] converted to [size_t], a
    write past the end of the array. Whatever the length of the buffer, some
    shape makes the same happen. When no print leaves the buffer the result
    is as the claim has it, but for a text of exactly [L - 1] characters,
    which is cut although it would fit: the buffer holds the whole text
    when that has at most [L - 2] characters, and otherwise its first
    [L - 5] characters and ["...]"], [L - 1] characters in all. The shape
    [2; 3; 4] is rendered as ["[2 x 3 x 4]"]. *)
Theorem size_desc_writes_past_buffer :
  (exists str15 str16,
     snprintf (uninit 64) 0 (to_size_t (64 - 0)) "[" [] = Ok (str15.1, 1)
     /\ size_loop 64 (seqZ 0 15) long_shape 17 str15.1 1 = Ok (str15.2, 61)
     /\ snprintf str15.2 61 (to_size_t (64 - 61)) ("%" +:+ PRId64)
          [va_int 1000] = Ok (str16, 4)
     /\ to_size_t (64 - (61 + 4)) = 18446744073709551615
     /\ snprintf str16 (61 + 4) (to_size_t (64 - (61 + 4))) " x " []
        = Fault OutOfBounds)
  /\ _THSizeDesc 64 long_shape 17 = Fault OutOfBounds
  /\ (forall L, 6 <= L <= INT_MAX ->
        _THSizeDesc L (crossing_shape L)
          (Z.of_nat (length (crossing_shape L))) = Fault OutOfBounds)
  /\ (forall L size ndim str,
        5 <= L <= INT_MAX ->
        0 <= ndim <= Z.of_nat (length size) ->
        _THSizeDesc L size ndim = Ok str ->
        let text := shape_text (take (Z.to_nat ndim) size) in
        Z.of_nat (length str) = L
        /\ len (c_str str) <= L - 1
        /\ (len text <= L - 2 /\ c_str str = text
            \/ L - 1 <= len text
               /\ c_str str = prefix (L - 5) text +:+ "...]"
               /\ len (c_str str) = L - 1))
  /\ desc_text (_THSizeDesc 64 (replicate 16 1) 16)
     = Some (prefix 59 (shape_text (replicate 16 1)) +:+ "...]")
  /\ len (shape_text (replicate 16 1)) = 63
  /\ desc_text (_THSizeDesc 64 [2; 3; 4] 3) = Some "[2 x 3 x 4]".
Proof.
  split_and!.
  - eexists (_, _), _. simpl fst; simpl snd.
    split; [by vm_compute |]. split; [by vm_compute |].
    split; [by vm_compute |]. by vm_compute.
  - by vm_compute.
  - apply size_desc_crossing.
  - apply size_desc_in_bounds.
  - by vm_compute.
  - by vm_compute.
  - by vm_compute.
Qed.

End ShapeText.

(** * Further properties *)

(** ** Reallocation in general *)

Section Reallocation.
Import CStr MachInt Printf TH Notions.

Context (host : Host).

Lemma THRealloc_events (t : tid) (p : ptr) (size : Z) (w : World) :
  p <> NULL ->
  0 < size ->
  let o := THRealloc host t p size w in
  events_since w o = realloc_events host t p size w
  /\ (returns o = false <-> raised (realloc_events host t p size w) = true)
  /\ (forall q w', o = Returned q w' ->
        q <> NULL
        /\ (q = hd NULL (realloc_answers w)
            \/ hd NULL (realloc_answers w) = NULL
               /\ q = hd NULL (tl (realloc_answers w)))).
Proof.
  intros Hp Hs o. subst o. rewrite THRealloc_positive by done.
  unfold realloc_events. cbv zeta.
  destruct (error_events_counts (error_handler_for t w).1
              (located (no_memory_text size) (this_file host) 192)
              (error_handler_for t w).2) as (_ & _ & Hraised).
  destruct (Z.eqb_spec (hd NULL (realloc_answers w)) NULL) as [E1|E1].
  - destruct (torchGCFunction (tls t w)) as [gc|].
    + destruct (Z.eqb_spec (hd NULL (tl (realloc_answers w))) NULL) as [E2|E2].
      * destruct (no_memory_run host t size (tl (tl (realloc_answers w)))
                    [Ev_realloc p size; Ev_gc gc (torchGCData (tls t w));
                     Ev_realloc p size] w) as [Hr Hev].
        rewrite Hev, raised_app, Hraised, orb_true_r.
        split_and!; try done. intros q w' Hq. rewrite Hq in Hr. done.
      * split_and!.
        -- by apply events_since_app.
        -- done.
        -- intros q w' Hq. simplify_eq. split; [done | by right].
    + destruct (no_memory_run host t size (tl (realloc_answers w))
                  [Ev_realloc p size] w) as [Hr Hev].
      rewrite Hev. change ([Ev_realloc p size] ++ ?x)
        with (Ev_realloc p size :: x).
      change (raised (Ev_realloc p size :: ?x)) with (raised x).
      rewrite Hraised. split_and!; try done.
      intros q w' Hq. rewrite Hq in Hr. done.
  - split_and!.
    + by apply events_since_app.
    + done.
    + intros q w' Hq. simplify_eq. split; [done | by left].
Qed.

Lemma error_events_kinds (h : THErrorHandlerFunction) (msg : string)
    (d : ptr) :
  count is_error_handler (error_events h msg d) = 1%nat
  /\ count is_arg_error_handler (error_events h msg d) = 0%nat
  /\ count is_free (error_events h msg d) = 0%nat
  /\ count is_alloc_cpu (error_events h msg d) = 0%nat.
Proof. by destruct h. Qed.

(** X1. When the system grants the reallocation at once, [THRealloc] returns
    the pointer it got: the call of [realloc] is the only event, so the
    collector hook is not called even when one is registered, and no error
    is raised. *)
Theorem realloc_granted (t : tid) (p : ptr) (size : Z) (w : World) :
  p <> NULL ->
  0 < size ->
  hd NULL (realloc_answers w) <> NULL ->
  let o := THRealloc host t p size w in
  o = Returned (hd NULL (realloc_answers w))
        (with_realloc_answers (tl (realloc_answers w))
           (logged [Ev_realloc p size] w))
  /\ events_since w o = [Ev_realloc p size]
  /\ count is_gc (events_since w o) = 0%nat
  /\ raised (events_since w o) = false.
Proof.
  intros Hp Hs Hq o.
  assert (o = Returned (hd NULL (realloc_answers w))
                (with_realloc_answers (tl (realloc_answers w))
                   (logged [Ev_realloc p size] w))) as Ho.
  { subst o. rewrite THRealloc_positive by done. cbv zeta.
    by destruct (Z.eqb_spec (hd NULL (realloc_answers w)) NULL). }
  assert (events_since w o = [Ev_realloc p size]) as ->
    by (apply events_since_app; by rewrite Ho).
  done.
Qed.

(** X2. For a pointer that is not null and a positive size, whatever the
    system answers and whatever is registered: [THRealloc] calls [realloc]
    at most twice and the hook at most once, frees nothing, does not call
    [c10::alloc_cpu], and calls an error handler at most once. It fails to
    return exactly when it raises the fatal error, and a pointer it returns
    is not null: it is the answer of the first [realloc], or of the second
    when the first was refused. *)
Theorem realloc_bounded (t : tid) (p : ptr) (size : Z) (w : World) :
  p <> NULL ->
  0 < size ->
  let o := THRealloc host t p size w in
  let evs := events_since w o in
  (1 <= count is_realloc evs <= 2)%nat
  /\ (count is_gc evs <= 1)%nat
  /\ count is_free evs = 0%nat
  /\ count is_alloc_cpu evs = 0%nat
  /\ (count is_error_handler evs <= 1)%nat
  /\ count is_arg_error_handler evs = 0%nat
  /\ (returns o = false <-> raised evs = true)
  /\ (forall q w', o = Returned q w' ->
        q <> NULL
        /\ (q = hd NULL (realloc_answers w)
            \/ hd NULL (realloc_answers w) = NULL
               /\ q = hd NULL (tl (realloc_answers w)))).
Proof.
  intros Hp Hs o evs.
  destruct (THRealloc_events t p size w Hp Hs) as (Hev & Hret & Hq).
  fold o in Hev, Hret, Hq. fold evs in Hev. rewrite Hev.
  split_and!; try done; unfold realloc_events; cbv zeta;
    destruct (error_events_kinds (error_handler_for t w).1
                (located (no_memory_text size) (this_file host) 192)
                (error_handler_for t w).2) as (K1 & K2 & K3 & K4);
    destruct (error_events_counts (error_handler_for t w).1
                (located (no_memory_text size) (this_file host) 192)
                (error_handler_for t w).2) as (K5 & K6 & _);
    destruct (hd NULL (realloc_answers w) =? NULL);
    try destruct (torchGCFunction (tls t w));
    try destruct (hd NULL (tl (realloc_answers w)) =? NULL);
    rewrite ?app_nil_r;
    repeat match goal with
           | |- context [count ?f (?a :: ?b :: ?c :: ?l)] =>
               change (a :: b :: c :: l) with ([a; b; c] ++ l)
           | |- context [count ?f (Ev_realloc ?x ?y :: error_events ?h ?m ?d)] =>
               change (Ev_realloc x y :: error_events h m d)
                 with ([Ev_realloc x y] ++ error_events h m d)
           end;
    rewrite ?count_app, ?K1, ?K2, ?K3, ?K4, ?K5, ?K6;
    try done; try (vm_compute; lia).
Qed.

Lemma THRealloc_negative_run (t : tid) (p : ptr) (size : Z) (w : World) :
  size < 0 ->
  let o := THRealloc host t p size w in
  returns o = false
  /\ events_since w o
     = error_events (error_handler_for t w).1
         (located invalid_size_text (this_file host)
            (if p =? NULL then 165 else 182))
         (error_handler_for t w).2.
Proof.
  intros Hs o. subst o. unfold THRealloc.
  destruct format_invalid_size as [Hf Hmax].
  destruct (Z.eqb_spec p NULL) as [->|Hp].
  - unfold THAlloc. destruct (Z.ltb_spec size 0); [| lia].
    destruct (THError_then host t 165 invalid_size_text [] invalid_size_text
                (fun _ => alloc_cpu size) w Hf Hmax) as [Hr Hfin].
    split; [done |]. by apply events_since_logged.
  - destruct (Z.eqb_spec size 0); [lia |].
    destruct (Z.ltb_spec size 0); [| lia].
    match goal with
    | |- context [bind (THError host t 182 ?f ?a) ?k] =>
        destruct (THError_then host t 182 f a invalid_size_text k w Hf Hmax)
          as [Hr Hfin]
    end.
    split; [done |]. by apply events_since_logged.
Qed.

(** X3. For a negative size [THRealloc] raises the fatal error about an
    invalid memory size, whatever the pointer: it does not return, calls
    one error handler, and calls neither [realloc] nor [free] nor
    [c10::alloc_cpu] nor the hook. The error carries line 165 (that of
    [THAlloc]) for a null pointer and line 182 otherwise. *)
Theorem realloc_negative (t : tid) (p : ptr) (size : Z) (w : World) :
  size < 0 ->
  let o := THRealloc host t p size w in
  let evs := events_since w o in
  returns o = false
  /\ evs = error_events (error_handler_for t w).1
             (located invalid_size_text (this_file host)
                (if p =? NULL then 165 else 182))
             (error_handler_for t w).2
  /\ count is_error_handler evs = 1%nat
  /\ count is_realloc evs = 0%nat
  /\ count is_free evs = 0%nat
  /\ count is_alloc_cpu evs = 0%nat
  /\ count is_gc evs = 0%nat.
Proof.
  intros Hs o evs.
  destruct (THRealloc_negative_run t p size w Hs) as [Hr Hev].
  fold o in Hr, Hev. fold evs in Hev. rewrite Hev.
  set (line := if p =? NULL then 165 else 182).
  destruct (error_events_kinds (error_handler_for t w).1
              (located invalid_size_text (this_file host) line)
              (error_handler_for t w).2) as (K1 & K2 & K3 & K4).
  destruct (error_events_counts (error_handler_for t w).1
              (located invalid_size_text (this_file host) line)
              (error_handler_for t w).2) as (K5 & K6 & _).
  done.
Qed.

Lemma realloc_events_hook (t t' : tid) (gc : option fnptr) (d : ptr)
    (p : ptr) (size : Z) (w : World) :
  t' <> t ->
  realloc_events host t p size (final (THSetGCHandler t' gc d w))
  = realloc_events host t p size w.
Proof.
  intros Ht. unfold realloc_events, error_handler_for, THSetGCHandler,
    modify, final.
  rewrite !tls_with_tls. destruct (decide (t' = t)); [done |]. done.
Qed.

(** X4. The collector hook is a matter of the thread that registers it.
    After [THSetGCHandler] on thread [t] with a hook, a reallocation on [t]
    that the system refuses calls that hook once with the data registered
    with it, between two calls of [realloc]; after [THSetGCHandler] with no
    hook it calls none and raises the fatal error after one attempt. On
    another thread the reallocation goes as if nothing had been
    registered. *)
Theorem gc_hook_registration (t t' : tid) (gc : fnptr) (d d' : ptr)
    (p : ptr) (size : Z) (w : World) :
  p <> NULL ->
  0 < size ->
  hd NULL (realloc_answers w) = NULL ->
  let w1 := final (THSetGCHandler t (Some gc) d w) in
  let w0 := final (THSetGCHandler t None d' w1) in
  (exists rest,
     events_since w1 (THRealloc host t p size w1)
     = [Ev_realloc p size; Ev_gc gc d; Ev_realloc p size] ++ rest
     /\ count is_gc rest = 0%nat
     /\ count is_realloc rest = 0%nat)
  /\ (exists rest,
        events_since w0 (THRealloc host t p size w0)
        = Ev_realloc p size :: rest
        /\ count is_gc rest = 0%nat
        /\ count is_realloc rest = 0%nat
        /\ raised rest = true)
  /\ (t' <> t ->
      events_since w1 (THRealloc host t' p size w1)
      = events_since w (THRealloc host t' p size w)).
Proof.
  intros Hp Hs Hfirst w1 w0.
  assert (forall th w, events_since w (THRealloc host th p size w)
                       = realloc_events host th p size w) as Hev
    by (intros; by apply THRealloc_events).
  rewrite !Hev.
  assert (forall g x w', tls t (final (THSetGCHandler t g x w'))
            = mk_thread_vars (threadErrorHandler (tls t w'))
                (threadErrorHandlerData (tls t w'))
                (threadArgErrorHandler (tls t w'))
                (threadArgErrorHandlerData (tls t w')) g x) as Htls.
  { intros. unfold THSetGCHandler, modify, final. rewrite tls_with_tls.
    by destruct (decide (t = t)). }
  split_and!.
  - assert (realloc_events host t p size w1
            = [Ev_realloc p size; Ev_gc gc d; Ev_realloc p size]
              ++ (if hd NULL (tl (realloc_answers w)) =? NULL
                  then error_events (error_handler_for t w1).1
                         (located (no_memory_text size) (this_file host) 192)
                         (error_handler_for t w1).2
                  else [])) as ->.
    { unfold realloc_events. cbv zeta.
      change (realloc_answers w1) with (realloc_answers w).
      rewrite Hfirst. change (NULL =? NULL) with true. cbv iota.
      subst w1. by rewrite Htls. }
    eexists. split; [reflexivity |].
    destruct (hd NULL (tl (realloc_answers w)) =? NULL); [| done].
    by destruct (error_events_counts (error_handler_for t w1).1
                   (located (no_memory_text size) (this_file host) 192)
                   (error_handler_for t w1).2) as (? & ? & ?).
  - assert (realloc_events host t p size w0
            = Ev_realloc p size
              :: error_events (error_handler_for t w0).1
                   (located (no_memory_text size) (this_file host) 192)
                   (error_handler_for t w0).2) as ->.
    { unfold realloc_events. cbv zeta.
      change (realloc_answers w0) with (realloc_answers w).
      rewrite Hfirst. change (NULL =? NULL) with true. cbv iota.
      subst w0. by rewrite Htls. }
    eexists. split; [reflexivity |].
    by destruct (error_events_counts (error_handler_for t w0).1
                   (located (no_memory_text size) (this_file host) 192)
                   (error_handler_for t w0).2) as (? & ? & ?).
  - intros Ht. subst w1. by apply realloc_events_hook.
Qed.

End Reallocation.

(** A reallocation that the system grants. *)
Lemma realloc_granted_witness :
  (4096 : TH.ptr) <> TH.NULL
  /\ 0 < 100
  /\ hd TH.NULL (TH.realloc_answers
                   (TH.with_realloc_answers [8192] TH.World0)) <> TH.NULL
  /\ TH.events_since (TH.with_realloc_answers [8192] TH.World0)
       (TH.THRealloc Notions.quiet_host 0%nat 4096 100
          (TH.with_realloc_answers [8192] TH.World0))
     = [TH.Ev_realloc 4096 100].
Proof.
  split; [by vm_compute |]. split; [lia |]. split; [by vm_compute |].
  apply (realloc_granted Notions.quiet_host 0%nat 4096 100
           (TH.with_realloc_answers [8192] TH.World0));
    [by vm_compute | lia | by vm_compute].
Defined.

(** The bounds for a reallocation in the world with a hook. *)
Lemma realloc_bounded_witness :
  (4096 : TH.ptr) <> TH.NULL
  /\ 0 < 100
  /\ (TH.count TH.is_gc
        (TH.events_since Notions.hooked_world
           (TH.THRealloc Notions.quiet_host 0%nat 4096%Z 100%Z
              Notions.hooked_world)) <= 1)%nat.
Proof.
  split; [by vm_compute |]. split; [lia |].
  apply (realloc_bounded Notions.quiet_host 0%nat 4096 100
           Notions.hooked_world); [by vm_compute | lia].
Defined.

(** Reallocation of the pointer 4096 to -1 bytes. *)
Lemma realloc_negative_witness :
  -1 < 0
  /\ TH.returns (TH.THRealloc Notions.quiet_host 0%nat 4096 (-1) TH.World0)
     = false.
Proof.
  split; [lia |].
  apply (realloc_negative Notions.quiet_host 0%nat 4096 (-1) TH.World0). lia.
Defined.

(** A hook registered on thread 0 and a refusal by the system. *)
Lemma gc_hook_registration_witness :
  (4096 : TH.ptr) <> TH.NULL
  /\ 0 < 100
  /\ hd TH.NULL (TH.realloc_answers TH.World0) = TH.NULL
  /\ exists rest,
       TH.events_since
         (TH.final (TH.THSetGCHandler 0%nat (Some 77) 5 TH.World0))
         (TH.THRealloc Notions.quiet_host 0%nat 4096 100
            (TH.final (TH.THSetGCHandler 0%nat (Some 77) 5 TH.World0)))
       = [TH.Ev_realloc 4096 100; TH.Ev_gc 77 5; TH.Ev_realloc 4096 100]
         ++ rest.
Proof.
  split; [by vm_compute |]. split; [lia |]. split; [reflexivity |].
  destruct (gc_hook_registration Notions.quiet_host 0%nat 1%nat 77 5 0
              4096 100 TH.World0) as [(rest & Hrest & _) _].
  - by vm_compute.
  - lia.
  - reflexivity.
  - exists rest. exact Hrest.
Defined.

(** ** Registrations and what reports do after them *)

Section Registrations.
Import CStr MachInt Printf TH Notions.

Context (host : Host).

Lemma error_handler_for_override (t t' : tid)
    (nh : option THErrorHandlerFunction) (d : ptr) (w : World) :
  error_handler_for t (final (THSetErrorHandler t' nh d w))
  = if decide (t' = t) then
      match nh with
      | Some h => (h, d)
      | None => (defaultErrorHandler w, defaultErrorHandlerData w)
      end
    else error_handler_for t w.
Proof.
  unfold error_handler_for, THSetErrorHandler, modify, final.
  rewrite tls_with_tls. destruct (decide (t' = t)); [| done]. by destruct nh.
Qed.

Lemma arg_error_handler_for_override (t t' : tid)
    (nh : option THArgErrorHandlerFunction) (d : ptr) (w : World) :
  arg_error_handler_for t (final (THSetArgErrorHandler t' nh d w))
  = if decide (t' = t) then
      match nh with
      | Some h => (h, d)
      | None => (defaultArgErrorHandler w, defaultArgErrorHandlerData w)
      end
    else arg_error_handler_for t w.
Proof.
  unfold arg_error_handler_for, THSetArgErrorHandler, modify, final.
  rewrite tls_with_tls. destruct (decide (t' = t)); [| done]. by destruct nh.
Qed.

(** X5. [THSetErrorHandler] and error reports on the same thread: after a
    handler is registered, a report calls it with the data registered with
    it, whatever the default is; a later registration replaces it; and a
    registration of no handler brings the thread back to the process-wide
    default and its data, the data passed with the null handler playing no
    part. *)
Theorem error_override_round_trip (t : tid) (file : string) (line : Z)
    (fmt : string) (ap : list va_arg) (primary : string)
    (h h2 : THErrorHandlerFunction) (d d2 d' : ptr) (w : World) :
  format fmt ap = Some primary ->
  len primary <= INT_MAX ->
  let msg := located primary file line in
  let report w := events_since w (_THError host t file line fmt ap w) in
  let w1 := final (THSetErrorHandler t (Some h) d w) in
  let w2 := final (THSetErrorHandler t (Some h2) d2 w1) in
  let w0 := final (THSetErrorHandler t None d' w2) in
  report w1 = error_events h msg d
  /\ report w2 = error_events h2 msg d2
  /\ report w0
     = error_events (defaultErrorHandler w) msg (defaultErrorHandlerData w).
Proof.
  intros Hf Hmax msg report w1 w2 w0.
  assert (forall w, report w
            = error_events (error_handler_for t w).1 msg
                (error_handler_for t w).2) as Hreport
    by (intros; by apply _THError_events).
  rewrite !Hreport. subst w0 w2 w1.
  rewrite !error_handler_for_override. by destruct (decide (t = t)).
Qed.

(** X6. [THSetDefaultErrorHandler] and error reports: afterwards a thread
    with no override calls the handler passed, or the built-in one when
    none was passed, with the data passed; a thread with an override goes
    on calling its override with its own data. *)
Theorem default_error_handler_scope (t : tid) (file : string) (line : Z)
    (fmt : string) (ap : list va_arg) (primary : string)
    (nh : option THErrorHandlerFunction) (d : ptr) (w : World) :
  format fmt ap = Some primary ->
  len primary <= INT_MAX ->
  let msg := located primary file line in
  let w1 := final (THSetDefaultErrorHandler nh d w) in
  events_since w1 (_THError host t file line fmt ap w1)
  = match threadErrorHandler (tls t w) with
    | Some h => error_events h msg (threadErrorHandlerData (tls t w))
    | None =>
        error_events (match nh with
                      | Some h => h
                      | None => builtin_error_handler
                      end) msg d
    end.
Proof.
  intros Hf Hmax msg w1.
  rewrite (_THError_events host _ _ _ _ _ primary) by done.
  unfold error_handler_for. subst w1.
  change (tls t (final (THSetDefaultErrorHandler nh d w))) with (tls t w).
  by destruct (threadErrorHandler (tls t w)).
Qed.

(** X7. [THSetArgErrorHandler] and failed argument checks on the same
    thread: a registered handler is called with the argument index and the
    data registered with it, a later registration replaces it, and a
    registration of no handler brings the thread back to the process-wide
    default for argument errors. *)
Theorem arg_override_round_trip (t : tid) (file : string)
    (line argNumber : Z) (fmt : string) (ap : list va_arg) (primary : string)
    (h h2 : THArgErrorHandlerFunction) (d d2 d' : ptr) (w : World) :
  format fmt ap = Some primary ->
  len primary <= INT_MAX ->
  let msg := located primary file line in
  let check w :=
    events_since w (_THArgCheck host t file line 0 argNumber fmt ap w) in
  let w1 := final (THSetArgErrorHandler t (Some h) d w) in
  let w2 := final (THSetArgErrorHandler t (Some h2) d2 w1) in
  let w0 := final (THSetArgErrorHandler t None d' w2) in
  check w1 = arg_error_events h argNumber msg d
  /\ check w2 = arg_error_events h2 argNumber msg d2
  /\ check w0
     = arg_error_events (defaultArgErrorHandler w) argNumber msg
         (defaultArgErrorHandlerData w).
Proof.
  intros Hf Hmax msg check w1 w2 w0.
  assert (forall w, check w
            = arg_error_events (arg_error_handler_for t w).1 argNumber msg
                (arg_error_handler_for t w).2) as Hcheck
    by (intros; by apply _THArgCheck_events).
  rewrite !Hcheck. subst w0 w2 w1.
  rewrite !arg_error_handler_for_override. by destruct (decide (t = t)).
Qed.

(** X8. [THSetDefaultArgErrorHandler]: it makes the handler passed, or the
    built-in one when none is passed, the process-wide default for argument
    errors, and the data passed the data of that default, replacing what
    was there. Afterwards a failed check on a thread with no override calls
    that handler with that data; a thread with an override goes on calling
    its override. The handlers for errors are left as they were. *)
Theorem default_arg_error_handler_scope (t : tid) (file : string)
    (line argNumber : Z) (fmt : string) (ap : list va_arg) (primary : string)
    (nh : option THArgErrorHandlerFunction) (d : ptr) (w : World) :
  format fmt ap = Some primary ->
  len primary <= INT_MAX ->
  let msg := located primary file line in
  let w1 := final (THSetDefaultArgErrorHandler nh d w) in
  events_since w1 (_THArgCheck host t file line 0 argNumber fmt ap w1)
  = match threadArgErrorHandler (tls t w) with
    | Some h =>
        arg_error_events h argNumber msg (threadArgErrorHandlerData (tls t w))
    | None =>
        arg_error_events (match nh with
                          | Some h => h
                          | None => builtin_arg_error_handler
                          end) argNumber msg d
    end
  /\ defaultArgErrorHandlerData w1 = d
  /\ error_handler_for t w1 = error_handler_for t w.
Proof.
  intros Hf Hmax msg w1. split; [| done].
  rewrite (_THArgCheck_events host _ _ _ _ _ _ primary) by done.
  unfold arg_error_handler_for. subst w1.
  change (tls t (final (THSetDefaultArgErrorHandler nh d w))) with (tls t w).
  by destruct (threadArgErrorHandler (tls t w)).
Qed.

Lemma _THArgCheck_run (t : tid) (file : string) (line argNumber : Z)
    (fmt : string) (ap : list va_arg) (primary : string) (w : World) :
  format fmt ap = Some primary ->
  len primary <= INT_MAX ->
  _THArgCheck host t file line 0 argNumber fmt ap w
  = (call_arg_error_handler host (arg_error_handler_for t w).1 argNumber
       (Some (located primary file line)) (arg_error_handler_for t w).2
     ;; TH_UNREACHABLE) w.
Proof.
  intros Hf Hmax. rewrite _THArgCheck_steps.
  destruct (format_message_ok fmt ap file line primary Hf Hmax)
    as (msg & -> & <-).
  reflexivity.
Qed.

(** X9. The built-in handler for argument errors. When it is in force, a
    failed [_THArgCheck] prints the line
    ["$ Invalid argument <n>: <message>"], with the argument index as an int
    and the located message, and ends the process with status -1; nothing
    else happens. Called with no message the handler prints
    ["$ Invalid argument <n>"] and ends the process the same way;
    [_THArgCheck] always passes a message. *)
Theorem builtin_arg_error_handler_run (t : tid) (file : string)
    (line argNumber : Z) (fmt : string) (ap : list va_arg) (primary : string)
    (w : World) :
  format fmt ap = Some primary ->
  len primary <= INT_MAX ->
  threadArgErrorHandler (tls t w) = None ->
  defaultArgErrorHandler w = builtin_arg_error_handler ->
  let msg := located primary file line in
  _THArgCheck host t file line 0 argNumber fmt ap w
  = Exited (-1)
      (logged [Ev_arg_error_handler builtin_arg_error_handler argNumber
                 (Some msg) (defaultArgErrorHandlerData w);
               Ev_printf ("$ Invalid argument " +:+ dec (sint 32 argNumber)
                          +:+ ": " +:+ msg +:+ nl)] w)
  /\ wait_status (-1) = 255
  /\ (forall d w',
        defaultArgErrorHandlerFunction argNumber None d w'
        = Exited (-1)
            (logged [Ev_printf ("$ Invalid argument "
                                +:+ dec (sint 32 argNumber) +:+ nl)] w')).
Proof.
  intros Hf Hmax Hthread Hdefault msg. split_and!; [| done |].
  - rewrite (_THArgCheck_run _ _ _ _ _ _ primary) by done.
    unfold arg_error_handler_for. rewrite Hthread, Hdefault. simpl fst.
    simpl snd. rewrite call_builtin_arg_error_handler.
    unfold arg_error_events. fold msg.
    rewrite (cut_nul_free msg); [done |].
    apply nul_free_located. by eapply format_nul_free.
  - intros d w'. unfold defaultArgErrorHandlerFunction, printf, bind, lift.
    reflexivity.
Qed.

(** X10. With a handler of the host in force, [_THError] calls it with the
    located message and the data in force and does nothing else: this file
    prints nothing, and how the call ends is up to the handler: with the
    status it exits with, by its transfer of control, or, should it return,
    at the point the code marks unreachable. *)
Theorem error_under_host_handler (t : tid) (file : string) (line : Z)
    (fmt : string) (ap : list va_arg) (primary : string) (f : fnptr)
    (w : World) :
  format fmt ap = Some primary ->
  len primary <= INT_MAX ->
  (error_handler_for t w).1 = host_error_handler f ->
  let msg := located primary file line in
  let d := (error_handler_for t w).2 in
  let w' := logged [Ev_error_handler (host_error_handler f) msg d] w in
  _THError host t file line fmt ap w
  = match host_error host f msg d with
    | Terminates s => Exited s w'
    | Transfers => Transferred w'
    | ComesBack => Undefined Unreachable w'
    end.
Proof.
  intros Hf Hmax Hh msg d w'.
  rewrite (_THError_run host _ _ _ _ _ primary) by done.
  rewrite Hh. by rewrite call_host_error_handler.
Qed.

End Registrations.

(** ** Assertions with a short condition *)

Section AssertionLocation.
Import CStr MachInt Printf TH Notions.

Context (host : Host).

Lemma _THAssertionFailed_forward (t : tid) (file : string) (line : Z)
    (exp fmt : string) (ap : list va_arg) (explanation : string) (w : World) :
  format fmt ap = Some explanation ->
  _THAssertionFailed host t file line exp fmt ap w
  = _THError host t file line "Assertion `%s' failed. %s"
      [va_str exp; va_str (prefix 1023 explanation)] w
  /\ format "Assertion `%s' failed. %s"
       [va_str exp; va_str (prefix 1023 explanation)]
     = Some ("Assertion `" +:+ cut exp +:+ "' failed. "
             +:+ prefix 1023 explanation).
Proof.
  intros Hf. pose proof (format_nul_free _ _ _ Hf) as Hnf.
  assert (nul_free (prefix 1023 explanation) = true) as Hshown
    by by apply nul_free_prefix.
  split.
  - unfold _THAssertionFailed, bind, lift.
    destruct (snprintf_behind EmptyString (uninit 1024) 1024 fmt ap
                explanation Hf) as (rest & Hs & _).
    { rewrite length_uninit. lia. }
    change (bytes EmptyString ++ uninit 1024) with (uninit 1024) in Hs.
    change (len EmptyString) with 0 in Hs. rewrite app_nil_s in Hs.
    rewrite Hs. simpl. by rewrite c_str_bytes.
  - rewrite format_assertion. by rewrite (cut_nul_free (prefix 1023 _)).
Qed.

(** X11. The two arrays of [_THAssertionFailed] and [_THError] together:
    the explanation is held to 1023 characters, so when the text of the
    condition and the location suffix have at most 1003 characters between
    them, the message that reaches the error handler in force is
    ["Assertion `<condition>' failed. <explanation> at <file>:<line>"] with
    the location in full, however long the explanation is. *)
Theorem assertion_keeps_location (t : tid) (file : string) (line : Z)
    (exp fmt : string) (ap : list va_arg) (explanation : string) (w : World) :
  format fmt ap = Some explanation ->
  len (cut exp) + len (location file line) <= 1003 ->
  events_since w (_THAssertionFailed host t file line exp fmt ap w)
  = error_events (error_handler_for t w).1
      ("Assertion `" +:+ cut exp +:+ "' failed. "
       +:+ prefix 1023 explanation +:+ location file line)
      (error_handler_for t w).2.
Proof.
  intros Hf Hshort.
  destruct (_THAssertionFailed_forward t file line exp fmt ap explanation w Hf)
    as [-> Htext].
  set (text := "Assertion `" +:+ cut exp +:+ "' failed. "
               +:+ prefix 1023 explanation) in *.
  assert (len text <= 1044 + len (cut exp)) as Hlen.
  { subst text. rewrite !len_app, len_prefix.
    change (len "Assertion `") with 11. change (len "' failed. ") with 10.
    pose proof (len_nonneg explanation). lia. }
  pose proof (len_nonneg (cut exp)).
  pose proof (len_nonneg (location file line)).
  rewrite (_THError_events host _ _ _ _ _ text) by (done || unfold INT_MAX; lia).
  unfold located. rewrite prefix_all by (rewrite len_app; lia).
  subst text. by rewrite !app_assoc_s.
Qed.

End AssertionLocation.

(** ** Shapes that fit, shapes that cross the end *)

Section ShapeCriterion.
Import CStr MachInt Printf TH Notions.

(** A print at an offset up to the end of the array, with the room left as
    its size, succeeds. *)
Lemma snprintf_upto (L : Z) (str : list ascii) (n : Z) (fmt : string)
    (ap : list va_arg) (text : string) :
  Z.of_nat (length str) = L ->
  0 <= n <= L ->
  L <= INT_MAX ->
  format fmt ap = Some text ->
  exists str', snprintf str n (to_size_t (L - n)) fmt ap
               = Ok (str', printed text).
Proof.
  intros Hlen Hn HL Hf.
  destruct (Z.eq_dec n L) as [->|Hne].
  - rewrite Z.sub_diag. unfold snprintf. rewrite Hf. by exists str.
  - destruct (snprintf_within L str n fmt ap text) as (str' & Hs & _);
      try done; [lia |]. by exists str'.
Qed.

Lemma printed_short (text : string) :
  len text <= INT_MAX -> printed text = len text.
Proof.
  intros H. unfold printed. by destruct (Z.ltb_spec INT_MAX (len text)); [lia |].
Qed.

(** The rounds fail exactly when [overruns] says so. *)
Lemma size_loop_overruns (L : Z) (size : list Z) (ndim : Z) :
  1 <= L <= INT_MAX ->
  forall (rem : list Z) (i : Z) (str : list ascii) (T : string),
    desc_state L str T ->
    0 <= i ->
    i + Z.of_nat (length rem) = ndim ->
    (forall (j : nat) d,
        rem !! j = Some d -> size !! (Z.to_nat i + j)%nat = Some d) ->
    if overruns L (len T) rem
    then size_loop L (seqZ i (Z.of_nat (length rem))) size ndim str (len T)
         = Fault OutOfBounds
    else exists str' n',
        size_loop L (seqZ i (Z.of_nat (length rem))) size ndim str (len T)
        = Ok (str', n').
Proof.
  intros HL rem.
  induction rem as [|d rem IH]; intros i str T Hst Hi Hnd Hsize.
  - simpl. by exists str, (len T).
  - rewrite seqZ_cons by (cbn [length]; lia).
    cbn [size_loop overruns].
    destruct (Z.geb_spec (len T) L) as [Hfull|Hroom]; [by exists str, (len T) |].
    rewrite <- (Nat.add_0_r (Z.to_nat i)), (Hsize 0%nat d) by done.
    pose proof (len_dec (sint 64 d)) as Hdec.
    pose proof (len_nonneg (dec (sint 64 d))) as Hdec0.
    pose proof (len_nonneg T) as HT.
    pose proof Hst as (Hlen & _).
    destruct (snprintf_upto L str (len T) ("%" +:+ PRId64) [va_int d]
                (dec (sint 64 d)) Hlen ltac:(lia) ltac:(lia)
                (format_PRId64 d)) as (str1 & Hs1).
    rewrite printed_short in Hs1 by (unfold INT_MAX; lia).
    rewrite Hs1.
    destruct (desc_step L str T _ _ _ str1 _ HL Hst
                ltac:(unfold INT_MAX in *; lia) (format_PRId64 d)
                ltac:(unfold INT_MAX in *; lia) Hs1) as (_ & Hst1 & _).
    rewrite <- len_app.
    replace (Z.pred (Z.of_nat (length (d :: rem))))
      with (Z.of_nat (length rem)) by (cbn [length]; lia).
    cbn [length] in Hnd.
    destruct rem as [|d' rem]; cbn [length] in Hnd.
    + destruct (Z.ltb_spec i (ndim - 1)) as [|_]; [lia |].
      simpl. by eexists _, _.
    + destruct (Z.ltb_spec i (ndim - 1)) as [_|]; [| lia].
      pose proof Hst1 as (Hlen1 & _).
      destruct (Z.ltb_spec L (len (T +:+ dec (sint 64 d)))) as [Hover|Hin].
      * rewrite (snprintf_past str1 _ _ " x " [] " x "); [done | lia | | done].
        rewrite len_app in *. unfold to_size_t. unfold INT_MAX in *.
        rewrite <- (Z_mod_plus_full _ 1 (2 ^ 64)). rewrite Z.mod_small; lia.
      * pose proof (len_nonneg (T +:+ dec (sint 64 d))).
        destruct (snprintf_upto L str1 (len (T +:+ dec (sint 64 d))) " x " []
                    " x " Hlen1 ltac:(lia) ltac:(lia) eq_refl)
          as (str2 & Hs2).
        change (printed " x ") with 3 in Hs2. rewrite Hs2.
        destruct (desc_step L str1 _ " x " [] " x " str2 _ HL Hst1
                    ltac:(unfold INT_MAX in *; lia) eq_refl
                    ltac:(by vm_compute) Hs2) as (_ & Hst2 & _).
        assert (len ((T +:+ dec (sint 64 d)) +:+ " x ")
                = len (T +:+ dec (sint 64 d)) + 3) as E
          by by rewrite (len_app _ " x ").
        rewrite <- !E.
        apply (IH (Z.succ i) str2 _ Hst2); [lia | cbn [length]; lia |].
        intros j x Hj. rewrite Z2Nat.inj_succ by lia.
        replace (S (Z.to_nat i) + j)%nat with (Z.to_nat i + S j)%nat by lia.
        by apply Hsize.
Qed.

(** The start of [_THSizeDesc]: the opening bracket in a fresh array. *)
Lemma size_desc_open (L : Z) :
  2 <= L <= INT_MAX ->
  exists rest,
    snprintf (uninit (Z.to_nat L)) 0 (to_size_t (L - 0)) "[" []
    = Ok (bytes "[" ++ NUL :: rest, 1)
    /\ desc_state L (bytes "[" ++ NUL :: rest) "[".
Proof.
  intros HL. unfold INT_MAX in HL.
  destruct (snprintf_behind EmptyString (uninit (Z.to_nat L)) L "[" [] "["
              eq_refl) as (rest & Hs0 & Hlen0).
  { rewrite length_uninit. lia. }
  change (bytes EmptyString ++ uninit (Z.to_nat L))
    with (uninit (Z.to_nat L)) in Hs0, Hlen0.
  change (len EmptyString) with 0 in Hs0. rewrite app_nil_s in Hs0, Hlen0.
  rewrite (prefix_all (L - 1) "[") in Hs0, Hlen0
    by (change (len "[") with 1; lia).
  rewrite length_uninit in Hlen0.
  assert (to_size_t (L - 0) = L) as ->.
  { unfold to_size_t. rewrite Z.sub_0_r, Z.mod_small; lia. }
  exists rest. split; [done |].
  split_and!; [lia | done | | by exists rest].
  rewrite c_str_bytes by done.
  by rewrite prefix_all by (change (len "[") with 1; lia).
Qed.

(** Whether [_THSizeDesc] returns a buffer or writes past it. *)
Lemma size_desc_runs (L : Z) (size : list Z) (ndim : Z) :
  5 <= L <= INT_MAX ->
  0 <= ndim <= Z.of_nat (length size) ->
  if overruns L 1 (take (Z.to_nat ndim) size)
  then _THSizeDesc L size ndim = Fault OutOfBounds
  else exists str, _THSizeDesc L size ndim = Ok str.
Proof.
  intros HL Hnd. unfold _THSizeDesc. cbv zeta.
  set (ds := take (Z.to_nat ndim) size).
  assert (1 <= L <= INT_MAX) as HL1 by lia.
  destruct (size_desc_open L ltac:(lia)) as (rest & -> & Hst0).
  assert (ndim = Z.of_nat (length ds)) as Hds.
  { subst ds. rewrite length_take. lia. }
  assert (forall (j : nat) d, ds !! j = Some d
                              -> size !! (Z.to_nat 0 + j)%nat = Some d) as Hlook.
  { intros j d Hj. subst ds. by apply lookup_take_Some in Hj as [Hj _]. }
  pose proof (size_loop_overruns L size ndim HL1 ds 0 _ "[" Hst0
                ltac:(lia) ltac:(lia) Hlook) as Hloop.
  change (len "[") with (0 + 1) in Hloop. rewrite <- Hds in Hloop.
  change (overruns L (0 + 1) ds) with (overruns L 1 ds) in Hloop.
  destruct (overruns L 1 ds).
  - by rewrite Hloop.
  - destruct Hloop as (str1 & n1 & Hloop). rewrite Hloop.
    change (0 + 1) with (len "[") in Hloop. rewrite Hds in Hloop at 1.
    destruct (size_loop_text L size ndim HL1 ds 0 _ "[" str1 n1 Hst0
                ltac:(lia) ltac:(lia) Hlook Hloop)
      as (T' & more & (Hlen1 & _) & -> & _ & _).
    pose proof (len_nonneg T').
    destruct (Z.ltb_spec (len T') (L - 2)).
    + destruct (snprintf_upto L str1 (len T') "]" [] "]" Hlen1 ltac:(lia)
                  ltac:(lia) eq_refl) as (str2 & ->).
      by exists str2.
    + unfold snprintf, store. change (format "...]" []) with (Some "...]").
      change (5 =? 0) with false. cbv iota.
      rewrite bool_decide_eq_true_2; [by eexists |].
      unfold INT_MAX in *. simpl. lia.
Qed.

Lemma overruns_long (L n : Z) (rem : list Z) :
  overruns L n rem = true -> L < n + len (shape_items rem).
Proof.
  revert n. induction rem as [|d rem IH]; intros n; [done |].
  cbn [overruns]. destruct (Z.geb_spec n L); [done |].
  destruct rem as [|d' rem]; [done |].
  rewrite shape_items_more, !len_app. change (len " x ") with 3.
  pose proof (len_nonneg (shape_items (d' :: rem))).
  destruct (Z.ltb_spec L (n + len (dec (sint 64 d)))); [lia |].
  intros Hrec. apply IH in Hrec. lia.
Qed.

(** X12. [_THSizeDesc] for the [ndim] first of the sizes in [size], in a
    buffer of 5 characters or more: it writes past the end of the buffer
    exactly when [overruns] holds, that is when, going through the sizes
    with the count of characters, a size that is not the last starts inside
    the buffer and ends beyond its last character. In every other case it
    returns a buffer, which holds the whole text when that has at most
    [L - 2] characters and otherwise its first [L - 5] characters followed
    by ["...]"]. *)
Theorem size_desc_overrun_criterion (L : Z) (size : list Z) (ndim : Z) :
  5 <= L <= INT_MAX ->
  0 <= ndim <= Z.of_nat (length size) ->
  let text := shape_text (take (Z.to_nat ndim) size) in
  if overruns L 1 (take (Z.to_nat ndim) size)
  then _THSizeDesc L size ndim = Fault OutOfBounds
  else exists str,
      _THSizeDesc L size ndim = Ok str
      /\ Z.of_nat (length str) = L
      /\ (len text <= L - 2 /\ c_str str = text
          \/ L - 1 <= len text
             /\ c_str str = prefix (L - 5) text +:+ "...]").
Proof.
  intros HL Hnd text. pose proof (size_desc_runs L size ndim HL Hnd) as Hrun.
  destruct (overruns L 1 (take (Z.to_nat ndim) size)); [done |].
  destruct Hrun as (str & Hstr). exists str. split; [done |].
  destruct (size_desc_in_bounds L size ndim str HL Hnd Hstr)
    as (Hlen & _ & [[? ?]|(? & ? & _)]); (split; [done |]);
    [by left | by right].
Qed.

(** X13. A shape whose text fits is safe. When the text for the [ndim]
    first sizes has at most [L + 1] characters, [_THSizeDesc] writes nothing
    past the buffer; when it has at most [L - 2], the buffer returned holds
    exactly that text. *)
Theorem size_desc_fits (L : Z) (size : list Z) (ndim : Z) :
  5 <= L <= INT_MAX ->
  0 <= ndim <= Z.of_nat (length size) ->
  let text := shape_text (take (Z.to_nat ndim) size) in
  len text <= L + 1 ->
  exists str,
    _THSizeDesc L size ndim = Ok str
    /\ Z.of_nat (length str) = L
    /\ (len text <= L - 2 -> c_str str = text).
Proof.
  intros HL Hnd text Hfit.
  pose proof (size_desc_runs L size ndim HL Hnd) as Hrun.
  destruct (overruns L 1 (take (Z.to_nat ndim) size)) eqn:Hov.
  - apply overruns_long in Hov. subst text. unfold shape_text in Hfit.
    rewrite !len_app in Hfit. change (len "[") with 1 in Hfit.
    change (len "]") with 1 in Hfit. lia.
  - destruct Hrun as (str & Hstr). exists str. split; [done |].
    destruct (size_desc_in_bounds L size ndim str HL Hnd Hstr)
      as (Hlen & _ & [[_ Heq]|(Hlong & _ & _)]); (split; [done |]).
    + done.
    + intros Hshort. fold text in Hlong. lia.
Qed.

(** X14. With no dimension to print, [ndim] zero or negative, [_THSizeDesc]
    reads nothing of [size] and returns a buffer that holds ["[]"], for
    every buffer of 4 characters or more. *)
Theorem size_desc_empty (L : Z) (size : list Z) (ndim : Z) :
  4 <= L <= INT_MAX ->
  ndim <= 0 ->
  desc_text (_THSizeDesc L size ndim) = Some "[]"
  /\ _THSizeDesc L size ndim = _THSizeDesc L [] 0.
Proof.
  intros HL Hnd.
  assert (forall sz nd, nd <= 0 ->
            desc_text (_THSizeDesc L sz nd) = Some "[]"
            /\ _THSizeDesc L sz nd
               = match snprintf (uninit (Z.to_nat L)) 0 (to_size_t (L - 0))
                         "[" [] with
                 | Ok (str, k) =>
                     match snprintf str (0 + k) (to_size_t (L - (0 + k)))
                             "]" [] with
                     | Ok (str', _) => Ok str'
                     | Fault f => Fault f
                     end
                 | Fault f => Fault f
                 end) as Hall.
  { intros sz nd Hn. unfold _THSizeDesc. cbv zeta.
    rewrite seqZ_nil by lia.
    destruct (size_desc_open L ltac:(lia)) as (rest & -> & Hst0).
    cbn [size_loop]. change (0 + 1) with 1.
    destruct (Z.ltb_spec 1 (L - 2)) as [_|]; [| lia].
    split; [| done].
    assert (to_size_t (L - 1) = L - 1) as ->.
    { unfold to_size_t, INT_MAX in *. rewrite Z.mod_small; lia. }
    destruct Hst0 as (Hlen & _).
    rewrite length_app, Nat2Z.inj_add, length_bytes in Hlen.
    change (len "[") with 1 in Hlen. cbn [length] in Hlen.
    destruct (snprintf_behind "[" (NUL :: rest) (L - 1) "]" [] "]" eq_refl)
      as (rest' & Hs & _); [cbn [length]; lia |].
    change (len "[") with 1 in Hs. rewrite Hs.
    unfold desc_text. rewrite c_str_bytes.
    - by rewrite (prefix_all (L - 1 - 1) "]")
        by (change (len "]") with 1; lia).
    - by rewrite (prefix_all (L - 1 - 1) "]")
        by (change (len "]") with 1; lia). }
  destruct (Hall size ndim Hnd) as [H1 H2].
  destruct (Hall [] 0 ltac:(lia)) as [_ H3].
  split; [done |]. by rewrite H2, H3.
Qed.

End ShapeCriterion.

(** ** Instances *)

(** An override on thread 0, replaced, then cleared. *)
Lemma error_override_round_trip_witness :
  Printf.format "bad size %d" [Printf.va_int 7] = Some "bad size 7"
  /\ CStr.len "bad size 7" <= MachInt.INT_MAX
  /\ TH.events_since
       (TH.final (TH.THSetErrorHandler 0%nat
                    (Some (TH.host_error_handler 4096)) 7 TH.World0))
       (TH._THError Notions.quiet_host 0%nat "f.c" 3 "bad size %d"
          [Printf.va_int 7]
          (TH.final (TH.THSetErrorHandler 0%nat
                       (Some (TH.host_error_handler 4096)) 7 TH.World0)))
     = Notions.error_events (TH.host_error_handler 4096)
         (Notions.located "bad size 7" "f.c" 3) 7.
Proof.
  split; [reflexivity |]. split; [vm_compute; congruence |].
  apply (error_override_round_trip Notions.quiet_host 0%nat "f.c" 3
           "bad size %d" [Printf.va_int 7] "bad size 7"
           (TH.host_error_handler 4096) (TH.host_error_handler 8192)
           7 8 9 TH.World0).
  - reflexivity.
  - vm_compute; congruence.
Defined.

(** A new default seen from thread 0, which has no override. *)
Lemma default_error_handler_scope_witness :
  Printf.format "bad size %d" [Printf.va_int 7] = Some "bad size 7"
  /\ CStr.len "bad size 7" <= MachInt.INT_MAX
  /\ TH.events_since
       (TH.final (TH.THSetDefaultErrorHandler
                    (Some (TH.host_error_handler 4096)) 7 TH.World0))
       (TH._THError Notions.quiet_host 0%nat "f.c" 3 "bad size %d"
          [Printf.va_int 7]
          (TH.final (TH.THSetDefaultErrorHandler
                       (Some (TH.host_error_handler 4096)) 7 TH.World0)))
     = Notions.error_events (TH.host_error_handler 4096)
         (Notions.located "bad size 7" "f.c" 3) 7.
Proof.
  split; [reflexivity |]. split; [vm_compute; congruence |].
  apply (default_error_handler_scope Notions.quiet_host 0%nat "f.c" 3
           "bad size %d" [Printf.va_int 7] "bad size 7"
           (Some (TH.host_error_handler 4096)) 7 TH.World0).
  - reflexivity.
  - vm_compute; congruence.
Defined.

(** An override for argument errors on thread 0. *)
Lemma arg_override_round_trip_witness :
  Printf.format "bad size %d" [Printf.va_int 7] = Some "bad size 7"
  /\ CStr.len "bad size 7" <= MachInt.INT_MAX
  /\ TH.events_since
       (TH.final (TH.THSetArgErrorHandler 0%nat
                    (Some (TH.host_arg_error_handler 4096)) 7 TH.World0))
       (TH._THArgCheck Notions.quiet_host 0%nat "f.c" 3 0 2 "bad size %d"
          [Printf.va_int 7]
          (TH.final (TH.THSetArgErrorHandler 0%nat
                       (Some (TH.host_arg_error_handler 4096)) 7 TH.World0)))
     = Notions.arg_error_events (TH.host_arg_error_handler 4096) 2
         (Notions.located "bad size 7" "f.c" 3) 7.
Proof.
  split; [reflexivity |]. split; [vm_compute; congruence |].
  apply (arg_override_round_trip Notions.quiet_host 0%nat "f.c" 3 2
           "bad size %d" [Printf.va_int 7] "bad size 7"
           (TH.host_arg_error_handler 4096) (TH.host_arg_error_handler 8192)
           7 8 9 TH.World0).
  - reflexivity.
  - vm_compute; congruence.
Defined.

(** A reset of the default for argument errors, with data 9. *)
Lemma default_arg_error_handler_scope_witness :
  Printf.format "bad size %d" [Printf.va_int 7] = Some "bad size 7"
  /\ CStr.len "bad size 7" <= MachInt.INT_MAX
  /\ TH.defaultArgErrorHandlerData
       (TH.final (TH.THSetDefaultArgErrorHandler None 9 TH.World0)) = 9.
Proof.
  split; [reflexivity |]. split; [vm_compute; congruence |].
  apply (default_arg_error_handler_scope Notions.quiet_host 0%nat "f.c" 3 2
           "bad size %d" [Printf.va_int 7] "bad size 7" None 9 TH.World0).
  - reflexivity.
  - vm_compute; congruence.
Defined.

(** A failed check of argument 2 in the initial world. *)
Lemma builtin_arg_error_handler_run_witness :
  Printf.format "bad size %d" [Printf.va_int 7] = Some "bad size 7"
  /\ CStr.len "bad size 7" <= MachInt.INT_MAX
  /\ TH.threadArgErrorHandler (TH.tls 0%nat TH.World0) = None
  /\ TH.defaultArgErrorHandler TH.World0 = TH.builtin_arg_error_handler
  /\ TH._THArgCheck Notions.quiet_host 0%nat "f.c" 3 0 2 "bad size %d"
       [Printf.va_int 7] TH.World0
     = TH.Exited (-1)
         (Notions.logged
            [TH.Ev_arg_error_handler TH.builtin_arg_error_handler 2
               (Some (Notions.located "bad size 7" "f.c" 3))
               (TH.defaultArgErrorHandlerData TH.World0);
             TH.Ev_printf ("$ Invalid argument "
                           +:+ Printf.dec (MachInt.sint 32 2) +:+ ": "
                           +:+ Notions.located "bad size 7" "f.c" 3
                           +:+ TH.nl)] TH.World0).
Proof.
  split; [reflexivity |]. split; [vm_compute; congruence |].
  split; [reflexivity |]. split; [reflexivity |].
  apply (builtin_arg_error_handler_run Notions.quiet_host 0%nat "f.c" 3 2
           "bad size %d" [Printf.va_int 7] "bad size 7" TH.World0).
  - reflexivity.
  - vm_compute; congruence.
  - reflexivity.
  - reflexivity.
Defined.

(** An error report under a handler of the host. *)
Lemma error_under_host_handler_witness :
  Printf.format "bad size %d" [Printf.va_int 7] = Some "bad size 7"
  /\ CStr.len "bad size 7" <= MachInt.INT_MAX
  /\ (Notions.error_handler_for 0%nat
        (TH.final (TH.THSetErrorHandler 0%nat
                     (Some (TH.host_error_handler 4096)) 7 TH.World0))).1
     = TH.host_error_handler 4096
  /\ TH.returns
       (TH._THError Notions.quiet_host 0%nat "f.c" 3 "bad size %d"
          [Printf.va_int 7]
          (TH.final (TH.THSetErrorHandler 0%nat
                       (Some (TH.host_error_handler 4096)) 7 TH.World0)))
     = false.
Proof.
  split; [reflexivity |]. split; [vm_compute; congruence |].
  split; [reflexivity |].
  rewrite (error_under_host_handler Notions.quiet_host 0%nat "f.c" 3
             "bad size %d" [Printf.va_int 7] "bad size 7" 4096
             (TH.final (TH.THSetErrorHandler 0%nat
                          (Some (TH.host_error_handler 4096)) 7 TH.World0))).
  - reflexivity.
  - reflexivity.
  - vm_compute; congruence.
  - reflexivity.
Defined.

(** A failed assertion with a short condition. *)
Lemma assertion_keeps_location_witness :
  Printf.format "n was %d" [Printf.va_int (-4)] = Some "n was -4"
  /\ CStr.len (CStr.cut "n > 0") + CStr.len (Notions.location "a.c" 7) <= 1003
  /\ TH.events_since TH.World0
       (TH._THAssertionFailed Notions.quiet_host 0%nat "a.c" 7 "n > 0"
          "n was %d" [Printf.va_int (-4)] TH.World0)
     = Notions.error_events TH.builtin_error_handler
         "Assertion `n > 0' failed. n was -4 at a.c:7" TH.NULL.
Proof.
  split; [reflexivity |]. split; [vm_compute; congruence |].
  apply (assertion_keeps_location Notions.quiet_host 0%nat "a.c" 7 "n > 0"
           "n was %d" [Printf.va_int (-4)] "n was -4" TH.World0).
  - reflexivity.
  - vm_compute; congruence.
Defined.

(** The shape 2 x 3 x 4 in a buffer of 64 characters. *)
Lemma size_desc_overrun_criterion_witness :
  5 <= 64 <= MachInt.INT_MAX
  /\ 0 <= 3 <= Z.of_nat (length [2; 3; 4])
  /\ exists str, TH._THSizeDesc 64 [2; 3; 4] 3 = Printf.Ok str.
Proof.
  assert (5 <= 64 <= MachInt.INT_MAX) as H1 by (vm_compute; split; congruence).
  assert (0 <= 3 <= Z.of_nat (length [2; 3; 4])) as H2
    by (vm_compute; split; congruence).
  split; [exact H1 |]. split; [exact H2 |].
  pose proof (size_desc_overrun_criterion 64 [2; 3; 4] 3 H1 H2) as Hc.
  cbv zeta in Hc.
  change (Notions.overruns 64 1 (take (Z.to_nat 3) [2; 3; 4])) with false in Hc.
  cbv iota in Hc. destruct Hc as (str & Hs & _). exists str. exact Hs.
Defined.

(** The same shape: its text fits. *)
Lemma size_desc_fits_witness :
  5 <= 64 <= MachInt.INT_MAX
  /\ 0 <= 3 <= Z.of_nat (length [2; 3; 4])
  /\ CStr.len (Notions.shape_text (take (Z.to_nat 3) [2; 3; 4])) <= 64 + 1
  /\ exists str, TH._THSizeDesc 64 [2; 3; 4] 3 = Printf.Ok str.
Proof.
  assert (5 <= 64 <= MachInt.INT_MAX) as H1 by (vm_compute; split; congruence).
  assert (0 <= 3 <= Z.of_nat (length [2; 3; 4])) as H2
    by (vm_compute; split; congruence).
  assert (CStr.len (Notions.shape_text (take (Z.to_nat 3) [2; 3; 4]))
          <= 64 + 1) as H3 by (vm_compute; congruence).
  split; [exact H1 |]. split; [exact H2 |]. split; [exact H3 |].
  destruct (size_desc_fits 64 [2; 3; 4] 3 H1 H2 H3) as (str & Hs & _).
  exists str. exact Hs.
Defined.

(** No dimension, in a buffer of 64 characters. *)
Lemma size_desc_empty_witness :
  4 <= 64 <= MachInt.INT_MAX
  /\ -1 <= 0
  /\ Notions.desc_text (TH._THSizeDesc 64 [5; 6] (-1)) = Some "[]".
Proof.
  assert (4 <= 64 <= MachInt.INT_MAX) as H1 by (vm_compute; split; congruence).
  split; [exact H1 |]. split; [lia |].
  apply (size_desc_empty 64 [5; 6] (-1) H1). lia.
Defined.
